(** * aerokit: one-dimensional nozzle flow ([aerokit/instance/nozzle.py])

    A shallow embedding of the regime classifier [_NPR_Ms_list], the two
    exit-Mach solvers [Ms_from_AsAc_NPR] and [Madapt_from_AsAc_NPR], and the
    [nozzle] class ([__init__], [set_NPR], accessors).

    Python floats are kept abstract behind the interface [Num]; it is
    instantiated twice, with binary64 floats ([FloatNum], to run the program)
    and with the real numbers ([RNum], for statements that need exact
    arithmetic).  [nozzle.py] imports the gas-dynamics modules [Isentropic],
    [MassFlow] and [ShockWave] and only calls them: they enter as a
    parameter, the record [GasLib], and every statement about the solvers and
    the field holds for any such library. *)

From Stdlib Require Import Reals Lra List Bool Arith Lia Floats.
Import ListNotations.

Set Implicit Arguments.
#[local] Set Warnings "-inexact-float".

(** ** Numbers *)

(** What the program asks of its scalars.  [fltb] is Python's [<] ([a > b] is
    [fltb b a]), [feqb] is [==], and [fisnan] is there because numpy's
    reductions treat NaN specially. *)
Class Num (F : Type) : Type := {
  f0 : F;
  f1 : F;
  f2 : F;
  fadd : F -> F -> F;
  fsub : F -> F -> F;
  fmul : F -> F -> F;
  fdiv : F -> F -> F;
  fsqrt : F -> F;
  fabs : F -> F;
  fltb : F -> F -> bool;
  fleb : F -> F -> bool;
  feqb : F -> F -> bool;
  fisnan : F -> bool
}.

Declare Scope num_scope.
Delimit Scope num_scope with num.
Infix "+" := fadd : num_scope.
Infix "-" := fsub : num_scope.
Infix "*" := fmul : num_scope.
Infix "/" := fdiv : num_scope.
Infix "<?" := fltb : num_scope.
Infix "<=?" := fleb : num_scope.
Notation "a >? b" := (fltb b a)
  (at level 70, no associativity, only parsing) : num_scope.

(** Binary64, as CPython and numpy compute. *)
#[export] Instance FloatNum : Num float := {|
  f0 := 0%float;
  f1 := 1%float;
  f2 := 2%float;
  fadd := PrimFloat.add;
  fsub := PrimFloat.sub;
  fmul := PrimFloat.mul;
  fdiv := PrimFloat.div;
  fsqrt := PrimFloat.sqrt;
  fabs := PrimFloat.abs;
  fltb := PrimFloat.ltb;
  fleb := PrimFloat.leb;
  feqb := PrimFloat.eqb;
  fisnan := PrimFloat.is_nan
|}.

Definition Rltb (a b : R) : bool := if Rlt_dec a b then true else false.
Definition Rleb (a b : R) : bool := if Rle_dec a b then true else false.
Definition Reqb (a b : R) : bool := if Req_dec_T a b then true else false.

(** Exact arithmetic: no rounding and no NaN. *)
#[export] Instance RNum : Num R := {|
  f0 := 0%R;
  f1 := 1%R;
  f2 := 2%R;
  fadd := Rplus;
  fsub := Rminus;
  fmul := Rmult;
  fdiv := Rdiv;
  fsqrt := R_sqrt.sqrt;
  fabs := Rabs;
  fltb := Rltb;
  fleb := Rleb;
  feqb := Reqb;
  fisnan := fun _ => false
|}.

(** ** Exceptions *)

Inductive exn : Set := IndexError | ValueError | AttributeError.

Inductive result (A : Type) : Type :=
| Ok (a : A)
| Raise (e : exn).
Arguments Ok {A} a.
Arguments Raise {A} e.

Definition bind {A B : Type} (c : result A) (k : A -> result B) : result B :=
  match c with
  | Ok a => k a
  | Raise e => Raise e
  end.

Notation "x <- c ;; k" := (bind c (fun x => k))
  (at level 61, c at next level, right associativity).

(** ** numpy *)

Section Numpy.
Context {F : Type} `{Num F}.
Local Open Scope num_scope.

(** [np.ones_like(a)] *)
Definition ones_like (a : list F) : list F := map (fun _ => f1) a.

(** [a[-1]] *)
Definition last_item (a : list F) : result F :=
  match rev a with
  | [] => Raise IndexError
  | v :: _ => Ok v
  end.

(** [np.min(a)]: the reduction keeps its accumulator when it is smaller or
    NaN; an empty array is a [ValueError]. *)
Definition np_min (a : list F) : result F :=
  match a with
  | [] => Raise ValueError
  | v0 :: rest =>
      Ok (fold_left (fun acc v => if (acc <? v) || fisnan acc then acc else v) rest v0)
  end.

(** [a.argmin()]: numpy scans left to right, moves on [not (a[i] >= mp)] and
    stops at the first NaN. *)
Fixpoint argmin_loop (mp : F) (min_ind i : nat) (ip : list F) : nat :=
  match ip with
  | [] => min_ind
  | v :: rest =>
      if negb (mp <=? v)
      then if fisnan v then i else argmin_loop v i (S i) rest
      else argmin_loop mp min_ind (S i) rest
  end.

Definition np_argmin (a : list F) : result nat :=
  match a with
  | [] => Raise ValueError
  | v0 :: rest => Ok (if fisnan v0 then 0 else argmin_loop v0 0 1 rest)
  end.

(** Elementwise binary operation on two arrays of one shape. *)
Fixpoint map2 (f : F -> F -> F) (a b : list F) : list F :=
  match a, b with
  | u :: a', v :: b' => f u v :: map2 f a' b'
  | _, _ => []
  end.

(** [a[:k] = vals] and [a[k:] = vals], for [vals] of the slice's shape (every
    use below computes [vals] from the same slice of an array as long as [a]). *)
Definition assign_upto (k : nat) (vals a : list F) : list F := vals ++ skipn k a.
Definition assign_from (k : nat) (vals a : list F) : list F := firstn k a ++ vals.

(** [a[k:] = v] for a scalar [v]. *)
Definition fill_from (k : nat) (v : F) (a : list F) : list F :=
  firstn k a ++ map (fun _ => v) (skipn k a).

(** [if v:] on an optional number: the value when it is given and is not
    [0.]; [None] and [0.] are false. *)
Definition truthy (o : option F) : option F :=
  match o with
  | Some v => if feqb v f0 then None else Some v
  | None => None
  end.

End Numpy.

(** ** The ambient gas and the gas-dynamics library *)

Section Nozzle.
Context {F : Type} `{Num F}.
Local Open Scope num_scope.

(** Modelled from the spec: the module [aerokit.common.defaultgas], whose
    source is missing.  The spec describes a global current-gas setting with a
    save/restore pair; [nozzle.py] reads its variable [_gamma]. *)
Record defaultgas : Type := {
  _gamma : F;
  _gamma_saved : F
}.

Definition save_default (g : defaultgas) : defaultgas :=
  {| _gamma := _gamma g; _gamma_saved := _gamma g |}.

Definition restore_default (g : defaultgas) : defaultgas :=
  {| _gamma := _gamma_saved g; _gamma_saved := _gamma_saved g |}.

(** The functions [nozzle.py] calls in [Isentropic] ([Is]), [MassFlow] ([mf])
    and [ShockWave] ([sw]), with the argument order of the calls: the Mach
    number or ratio first, then [gamma].  [default_gamma] is the value an
    omitted [gamma] keyword takes, as a function of the ambient [_gamma] (the
    library decides whether it follows it).  [pow] is Python's [**] on floats.
    Every call is taken to return a value: an exception raised inside the
    library (its root finder at an area ratio below 1 or on an empty array)
    has no counterpart here, so a statement that the constructor or
    [set_NPR] returns is a statement about their own code and numpy's. *)
Record GasLib : Type := {
  default_gamma : F -> F;
  pow : F -> F -> F;
  Is_PtPs_Mach : F -> F -> F;
  Is_Mach_PtPs : F -> F -> F;
  mf_Sigma_Mach : F -> F -> F;
  mf_MachSub_Sigma : F -> F -> F;
  mf_MachSup_Sigma : F -> F -> F;
  sw_downstream_Mn : F -> F -> F;
  sw_Pi_ratio : F -> F -> F;
  sw_Mn_Pi_ratio : F -> F -> F;
  sw_downstreamMach_Mach_ShockPsratio : F -> F -> F -> F
}.

Variable L : GasLib.

(** The [gamma] of a library call that passes none. *)
Definition kw (g : defaultgas) : F := default_gamma L (_gamma g).

(** ** Module-level functions *)

Definition NPR_choked_subsonic (g : defaultgas) (AsAc : F) : F :=
  Is_PtPs_Mach L (mf_MachSub_Sigma L AsAc (kw g)) (kw g).

Definition NPR_choked_supersonic (g : defaultgas) (AsAc : F) : F :=
  Is_PtPs_Mach L (mf_MachSup_Sigma L AsAc (kw g)) (kw g).

Definition NPR_shock_at_exit (g : defaultgas) (AsAc : F) : F :=
  let Msup := mf_MachSup_Sigma L AsAc (kw g) in
  let Msh := sw_downstream_Mn L Msup (kw g) in
  Is_PtPs_Mach L Msh (kw g) / sw_Pi_ratio L Msup (kw g).

Definition _NPR_Ms_list (g : defaultgas) (AsAc : F) : F * F * F * F * F * F :=
  let Msub := mf_MachSub_Sigma L AsAc (kw g) in
  let NPR0 := Is_PtPs_Mach L Msub (kw g) in
  let Msup := mf_MachSup_Sigma L AsAc (kw g) in
  let Msh := sw_downstream_Mn L Msup (kw g) in
  let NPRsw := Is_PtPs_Mach L Msh (kw g) / sw_Pi_ratio L Msup (kw g) in
  let NPR1 := Is_PtPs_Mach L Msup (kw g) in
  (NPR0, NPRsw, NPR1, Msub, Msh, Msup).

(** The last branch of both solvers (lines 107-109 and 139-141, the same three
    statements): exit Mach with a shock inside the diverging section. *)
Definition shock_in_nozzle_Ms (g : defaultgas) (AsAc NPR : F) : F :=
  let gmu := _gamma g - f1 in
  let K := NPR / AsAc / pow L ((_gamma g + f1) / f2) ((_gamma g + f1) / f2 / gmu) in
  fsqrt ((fsqrt (f1 + f2 * gmu * K * K) - f1) / gmu).

Definition Ms_from_AsAc_NPR (g : defaultgas) (AsAc NPR : F) : F :=
  let '(NPR0, NPRsw, NPR1, Msub, Msh, Msup) := _NPR_Ms_list g AsAc in
  if NPR <? NPR0 then Is_Mach_PtPs L NPR (kw g)
  else if NPR >? NPRsw then Msup
  else shock_in_nozzle_Ms g AsAc NPR.


(** ** class nozzle *)

(** The attributes of an instance.  [_M], [_Ps] and [_Pt] exist only once
    [set_NPR] has run: [None] is an attribute that was never assigned. *)
Record nozzle : Type := {
  gamma : F;
  x : list F;
  AsoAc : F;
  AxoAc : list F;
  ithroat : nat;
  NPR0 : F;
  NPRsw : F;
  NPR1 : F;
  Msub : F;
  Msh : F;
  Msup : F;
  _ref_rttot : F;
  _scale_ps : F;
  _M : option (list F);
  _Ps : option (list F);
  _Pt : option (list F)
}.

(** The three assignments that end [set_NPR]. *)
Definition with_field (self : nozzle) (M Ps Pt : list F) : nozzle :=
  {| gamma := gamma self; x := x self; AsoAc := AsoAc self;
     AxoAc := AxoAc self; ithroat := ithroat self;
     NPR0 := NPR0 self; NPRsw := NPRsw self; NPR1 := NPR1 self;
     Msub := Msub self; Msh := Msh self; Msup := Msup self;
     _ref_rttot := _ref_rttot self; _scale_ps := _scale_ps self;
     _M := Some M; _Ps := Some Ps; _Pt := Some Pt |}.

(** The Mach array of the choked nozzle before any shock is placed (lines
    187-189): subsonic branch up to the throat, supersonic branch after it. *)
Definition choked_Mach (self : nozzle) : list F :=
  let _M := ones_like (AxoAc self) in
  let _M := assign_upto (ithroat self + 1)
              (map (fun s => mf_MachSub_Sigma L s (gamma self))
                   (firstn (ithroat self + 1) (AxoAc self))) _M in
  assign_from (ithroat self + 1)
              (map (fun s => mf_MachSup_Sigma L s (gamma self))
                   (skipn (ithroat self + 1) (AxoAc self))) _M.

Definition set_NPR (g : defaultgas) (self : nozzle) (NPR : F) : result nozzle :=
  let _Pt := ones_like (AxoAc self) in
  if NPR <? NPR0 self then
    let _Ms := Is_Mach_PtPs L NPR (gamma self) in
    let _M := map (fun s => mf_MachSub_Sigma L s (gamma self))
                  (map (fun a => a / AsoAc self * mf_Sigma_Mach L _Ms (kw g))
                       (AxoAc self)) in
    let _Ps := map2 fdiv _Pt (map (fun m => Is_PtPs_Mach L m (gamma self)) _M) in
    Ok (with_field self _M _Ps _Pt)
  else
    let _M := choked_Mach self in
    if NPR <? NPRsw self then
      let Ms := Ms_from_AsAc_NPR g (AsoAc self) NPR in
      let Ptloss := Is_PtPs_Mach L Ms (kw g) / NPR in
      let Msh := sw_Mn_Pi_ratio L Ptloss (kw g) in
      ish <- np_argmin (map (fun m => fabs (m - Msh)) _M) ;;
      let _M := assign_from ish
                  (map (fun s => mf_MachSub_Sigma L s (kw g))
                       (map (fun a => a * mf_Sigma_Mach L Ms (kw g) / AsoAc self)
                            (skipn ish (AxoAc self)))) _M in
      let _Pt := fill_from ish Ptloss _Pt in
      let _Ps := map2 fdiv _Pt (map (fun m => Is_PtPs_Mach L m (kw g)) _M) in
      Ok (with_field self _M _Ps _Pt)
    else
      let _Ps := map2 fdiv _Pt (map (fun m => Is_PtPs_Mach L m (kw g)) _M) in
      Ok (with_field self _M _Ps _Pt).

(** The field of [set_NPR] by regime, named for the statements below. *)

(** Lines 183-184: the unchoked nozzle. *)
Definition unchoked_Mach (g : defaultgas) (self : nozzle) (NPR : F) : list F :=
  map (fun a =>
         mf_MachSub_Sigma L
           (a / AsoAc self
            * mf_Sigma_Mach L (Is_Mach_PtPs L NPR (gamma self)) (kw g))
           (gamma self))
      (AxoAc self).

(** With a shock in the nozzle: its total-pressure ratio, upstream Mach and
    station, as lines 192-196 compute them. *)
Definition shock_Ptloss (g : defaultgas) (self : nozzle) (NPR : F) : F :=
  Is_PtPs_Mach L (Ms_from_AsAc_NPR g (AsoAc self) NPR) (kw g) / NPR.

Definition shock_Msh (g : defaultgas) (self : nozzle) (NPR : F) : F :=
  sw_Mn_Pi_ratio L (shock_Ptloss g self NPR) (kw g).

Definition shock_distance (g : defaultgas) (self : nozzle) (NPR : F) : list F :=
  map (fun m => fabs (m - shock_Msh g self NPR)) (choked_Mach self).

Definition shocked_Mach (g : defaultgas) (self : nozzle) (NPR : F)
    (ish : nat) : list F :=
  firstn ish (choked_Mach self)
  ++ map (fun a =>
            mf_MachSub_Sigma L
              (a * mf_Sigma_Mach L (Ms_from_AsAc_NPR g (AsoAc self) NPR) (kw g)
               / AsoAc self)
              (kw g))
         (skipn ish (AxoAc self)).

(** [nozzle(x, section, AsoAc, gamma, NPR, ref_rttot, scale_ps)]: the new
    instance and the ambient gas after the call.  [AsoAc] and [NPR] default to
    [None]; both are tested for truth, so [0.] counts as absent. *)
Definition __init__ (g : defaultgas) (x_ section : list F) (AsoAc_ : option F)
    (gamma_ : F) (NPR : option F) (ref_rttot scale_ps : F)
    : result (nozzle * defaultgas) :=
  AsoAc_v <- match truthy AsoAc_ with
             | Some a => Ok a
             | None => s_last <- last_item section ;;
                       s_min <- np_min section ;;
                       Ok (s_last / s_min)
             end ;;
  s_last <- last_item section ;;
  let AxoAc_v := map (fun s => s * AsoAc_v / s_last) section in
  ithroat_v <- np_argmin (map fabs AxoAc_v) ;;
  let g1 := save_default g in
  let '(NPR0_v, NPRsw_v, NPR1_v, Msub_v, Msh_v, Msup_v) := _NPR_Ms_list g1 AsoAc_v in
  let self := {| gamma := gamma_; x := x_; AsoAc := AsoAc_v; AxoAc := AxoAc_v;
                 ithroat := ithroat_v;
                 NPR0 := NPR0_v; NPRsw := NPRsw_v; NPR1 := NPR1_v;
                 Msub := Msub_v; Msh := Msh_v; Msup := Msup_v;
                 _ref_rttot := ref_rttot; _scale_ps := scale_ps;
                 _M := None; _Ps := None; _Pt := None |} in
  self <- match truthy NPR with
          | Some v => set_NPR g1 self v
          | None => Ok self
          end ;;
  Ok (self, restore_default g1).

(** Reading an attribute that was never assigned is an [AttributeError]. *)
Definition getattr (a : option (list F)) : result (list F) :=
  match a with
  | Some v => Ok v
  | None => Raise AttributeError
  end.

Definition Mach (self : nozzle) : result (list F) := getattr (_M self).
Definition Ps (self : nozzle) : result (list F) := getattr (_Ps self).
Definition Ptot (self : nozzle) : result (list F) := getattr (_Pt self).

End Nozzle.

Arguments defaultgas F : clear implicits.
Arguments GasLib F : clear implicits.
Arguments nozzle F : clear implicits.

(** ** A perfect-gas library in binary64

    The closed-form perfect-gas relations the names of [GasLib] stand for,
    with the inverse relations solved by bisection and [**] by square roots.
    It is an instance of the parameter, used to run the program on concrete
    inputs; no statement about an arbitrary library depends on it. *)

Module PerfectGas.
Local Open Scope float_scope.

Fixpoint pow_int (b y acc : float) (fuel : nat) : float * float :=
  match fuel with
  | O => (acc, y)
  | S k => if 1 <=? y then pow_int b (y - 1) (acc * b) k else (acc, y)
  end.

Fixpoint pow_frac (r y acc : float) (fuel : nat) : float :=
  match fuel with
  | O => acc
  | S k =>
      let r := PrimFloat.sqrt r in
      let y := 2 * y in
      if 1 <=? y then pow_frac r (y - 1) (acc * r) k else pow_frac r y acc k
  end.

(** [b ** y] for [0 < b] and [0 <= y]: the integer part of [y] by products,
    its binary fraction by successive square roots. *)
Definition fpow (b y : float) : float :=
  let '(acc, y) := pow_int b y 1 400 in
  pow_frac b y acc 60.

Fixpoint bisect (f : float -> float) (target lo hi : float) (incr : bool)
    (fuel : nat) : float :=
  let mid := (lo + hi) / 2 in
  match fuel with
  | O => mid
  | S k =>
      if Bool.eqb (f mid <? target) incr
      then bisect f target mid hi incr k
      else bisect f target lo mid incr k
  end.

Definition PtPs_Mach (M g : float) : float :=
  fpow (1 + 0.5 * (g - 1) * M * M) (g / (g - 1)).

Definition Mach_PtPs (r g : float) : float :=
  PrimFloat.sqrt (2 / (g - 1) * (fpow r ((g - 1) / g) - 1)).

Definition Sigma_Mach (M g : float) : float :=
  fpow (2 / (g + 1) * (1 + 0.5 * (g - 1) * M * M)) ((g + 1) / (2 * (g - 1))) / M.

Definition MachSub_Sigma (s g : float) : float :=
  bisect (fun M => Sigma_Mach M g) s 0 1 false 60.

Definition MachSup_Sigma (s g : float) : float :=
  bisect (fun M => Sigma_Mach M g) s 1 100 true 60.

Definition downstream_Mn (M g : float) : float :=
  PrimFloat.sqrt ((1 + 0.5 * (g - 1) * M * M) / (g * M * M - 0.5 * (g - 1))).

Definition Pi_ratio (M g : float) : float :=
  fpow ((g + 1) * M * M / 2 / (1 + 0.5 * (g - 1) * M * M)) (g / (g - 1))
  * fpow ((g + 1) / (2 * g * M * M - (g - 1))) (1 / (g - 1)).

Definition Mn_Pi_ratio (p g : float) : float :=
  bisect (fun M => Pi_ratio M g) p 1 100 false 60.

(** Downstream Mach of a shock of static-pressure ratio [p]: density ratio by
    Rankine-Hugoniot, then conservation of total temperature. *)
Definition downstreamMach_Mach_ShockPsratio (M p g : float) : float :=
  let rho := ((g + 1) * p + (g - 1)) / ((g - 1) * p + (g + 1)) in
  let tau := p / rho in
  PrimFloat.sqrt (2 / (g - 1) * ((1 + 0.5 * (g - 1) * M * M) / tau - 1)).

(** [dflt] says what an omitted [gamma] is, given the ambient [_gamma]. *)
Definition lib (dflt : float -> float) : GasLib float := {|
  default_gamma := dflt;
  pow := fpow;
  Is_PtPs_Mach := PtPs_Mach;
  Is_Mach_PtPs := Mach_PtPs;
  mf_Sigma_Mach := Sigma_Mach;
  mf_MachSub_Sigma := MachSub_Sigma;
  mf_MachSup_Sigma := MachSup_Sigma;
  sw_downstream_Mn := downstream_Mn;
  sw_Pi_ratio := Pi_ratio;
  sw_Mn_Pi_ratio := Mn_Pi_ratio;
  sw_downstreamMach_Mach_ShockPsratio := downstreamMach_Mach_ShockPsratio
|}.

(** The default follows the ambient gas ... *)
Definition ambient : GasLib float := lib (fun g => g).
(** ... or was fixed to air when the library was loaded. *)
Definition air : GasLib float := lib (fun _ => 1.4).

Definition gas (g : float) : defaultgas float := {| _gamma := g; _gamma_saved := g |}.

End PerfectGas.

(** ** An algebraic surrogate over the reals

    A library of the same shape over [R], simple enough for [lra] and
    [field]: [Sigma] and its subsonic inverse are reciprocals, the shock
    relations are rational.  It serves to instantiate the statements made in
    exact arithmetic. *)

Module Surrogate.
Local Open Scope R_scope.

Definition lib : GasLib R := {|
  default_gamma := fun g => g;
  pow := Rpower;
  Is_PtPs_Mach := fun M _ => 1 + M;
  Is_Mach_PtPs := fun r _ => r - 1;
  mf_Sigma_Mach := fun M _ => / M;
  mf_MachSub_Sigma := fun s _ => / s;
  mf_MachSup_Sigma := fun s _ => s;
  sw_downstream_Mn := fun M _ => / M;
  sw_Pi_ratio := fun M _ => 2 / (1 + M);
  sw_Mn_Pi_ratio := fun p _ => 2 / p - 1;
  sw_downstreamMach_Mach_ShockPsratio := fun M p _ => M / p
|}.

Definition gas (g : R) : defaultgas R := {| _gamma := g; _gamma_saved := g |}.

End Surrogate.

(** What "[v] rounds to [r] at 8 decimals" means for a real [v]. *)
Definition rounds_to_8 (v r : R) : Prop :=
  (r - 5 / 1000000000 <= v < r + 5 / 1000000000)%R.


(** * Properties *)

Unset Implicit Arguments.

(** ** Lists and numpy helpers *)

Section NumpyFacts.
Context {F : Type} `{Num F}.

Lemma length_ones_like (a : list F) : length (ones_like a) = length a.
Proof. apply length_map. Qed.

Lemma length_map2_same (f : F -> F -> F) (a b : list F) :
  length a = length b -> length (map2 f a b) = length a.
Proof.
  revert b; induction a as [|u a IH]; intros [|v b] E; simpl in *;
    try discriminate; auto.
Qed.


Lemma nth_error_firstn_lt (a : list F) k i :
  i < k -> nth_error (firstn k a) i = nth_error a i.
Proof.
  intros Hi. rewrite nth_error_firstn.
  destruct (Nat.ltb_spec i k); [reflexivity | lia].
Qed.

Lemma length_fill_from k (v : F) a : length (fill_from k v a) = length a.
Proof.
  unfold fill_from. rewrite length_app, length_map, <- length_app.
  now rewrite firstn_skipn.
Qed.

Lemma nth_error_fill_from_lt k (v : F) a i :
  i < k -> nth_error (fill_from k v a) i = nth_error a i.
Proof.
  intros Hi. unfold fill_from.
  destruct (Nat.lt_ge_cases i (length a)) as [Hl|Hl].
  - rewrite nth_error_app1 by (rewrite length_firstn; lia).
    now apply nth_error_firstn_lt.
  - rewrite (proj2 (nth_error_None a i)) by exact Hl.
    apply nth_error_None.
    rewrite length_app, length_map, length_firstn, length_skipn. lia.
Qed.

Lemma nth_error_fill_from_ge k (v : F) a i :
  k <= i -> i < length a -> nth_error (fill_from k v a) i = Some v.
Proof.
  intros Hk Hi. unfold fill_from.
  rewrite nth_error_app2 by (rewrite length_firstn; lia).
  rewrite length_firstn, Nat.min_l by lia.
  rewrite nth_error_map.
  destruct (nth_error (skipn k a) (i - k)) eqn:E; [reflexivity|].
  apply nth_error_None in E. rewrite length_skipn in E. lia.
Qed.




(** The index [argmin_loop] returns is the running one or lies in the part
    still to scan. *)
Lemma argmin_loop_range ip : forall (mp : F) m i,
  m < i -> argmin_loop mp m i ip < i + length ip.
Proof.
  induction ip as [|v rest IH]; intros mp m i Hm; simpl.
  - lia.
  - destruct (negb (fleb mp v)).
    + destruct (fisnan v); [lia|].
      specialize (IH v i (S i) (Nat.lt_succ_diag_r i)). lia.
    + specialize (IH mp m (S i)). lia.
Qed.

Lemma np_argmin_lt (a : list F) i : np_argmin a = Ok i -> i < length a.
Proof.
  destruct a as [|v0 rest]; simpl; [discriminate|].
  intros [= <-]. destruct (fisnan v0); [lia|].
  pose proof (argmin_loop_range rest v0 0 1 Nat.lt_0_1). simpl in *. lia.
Qed.

Lemma np_argmin_nonempty (a : list F) :
  a <> [] -> exists i, np_argmin a = Ok i.
Proof. destruct a; [congruence|]. intros _. simpl. eauto. Qed.

Lemma last_item_app (a : list F) v : last_item (a ++ [v]) = Ok v.
Proof. unfold last_item. now rewrite rev_app_distr. Qed.

Lemma last_item_Ok (a : list F) v :
  last_item a = Ok v -> exists a', a = a' ++ [v].
Proof.
  unfold last_item. destruct (rev a) as [|u r] eqn:E; [discriminate|].
  intros [= ->]. exists (rev r).
  rewrite <- (rev_involutive a), E. reflexivity.
Qed.

Lemma last_item_map (f : F -> F) (a : list F) v :
  last_item a = Ok v -> last_item (map f a) = Ok (f v).
Proof.
  intros E. apply last_item_Ok in E as [a' ->].
  rewrite map_app. apply last_item_app.
Qed.

End NumpyFacts.

(** ** The solvers and the field, for any numbers and any library *)

Section NozzleFacts.
Context {F : Type} `{Num F}.
Variable L : GasLib F.
Local Open Scope num_scope.

Lemma _NPR_Ms_list_kw (g g' : defaultgas F) (AsAc : F) :
  kw L g = kw L g' -> _NPR_Ms_list L g AsAc = _NPR_Ms_list L g' AsAc.
Proof. unfold _NPR_Ms_list. now intros ->. Qed.

(** The first [ithroat+1] stations take the subsonic branch, the others the
    supersonic one: the two slice assignments tile the array of ones. *)
Lemma choked_Mach_eq (self : nozzle F) :
  choked_Mach L self =
  map (fun s => mf_MachSub_Sigma L s (gamma self))
      (firstn (ithroat self + 1) (AxoAc self))
  ++ map (fun s => mf_MachSup_Sigma L s (gamma self))
         (skipn (ithroat self + 1) (AxoAc self)).
Proof.
  unfold choked_Mach, assign_from, assign_upto, ones_like.
  set (k := (ithroat self + 1)%nat). set (A := AxoAc self).
  set (sub := map _ (firstn k A)).
  f_equal. rewrite firstn_app.
  assert (Hs : length sub = Nat.min k (length A)).
  { unfold sub. now rewrite length_map, length_firstn. }
  rewrite firstn_all2 by lia.
  destruct (Nat.le_gt_cases k (length A)) as [Hk|Hk].
  - replace (k - length sub)%nat with 0%nat by lia. simpl. apply app_nil_r.
  - rewrite skipn_all2 by (rewrite length_map; lia).
    rewrite firstn_nil. apply app_nil_r.
Qed.

Lemma length_choked_Mach (self : nozzle F) :
  length (choked_Mach L self) = length (AxoAc self).
Proof.
  rewrite choked_Mach_eq, length_app, !length_map, <- length_app.
  now rewrite firstn_skipn.
Qed.


(** The three outcomes of [set_NPR]. *)

Lemma set_NPR_unchoked (g : defaultgas F) (self : nozzle F) (NPR : F) :
  (NPR <? NPR0 self) = true ->
  set_NPR L g self NPR =
  Ok (with_field self
        (unchoked_Mach L g self NPR)
        (map2 fdiv (ones_like (AxoAc self))
              (map (fun m => Is_PtPs_Mach L m (gamma self))
                   (unchoked_Mach L g self NPR)))
        (ones_like (AxoAc self))).
Proof.
  intros E. unfold set_NPR. rewrite E. unfold unchoked_Mach.
  now rewrite map_map.
Qed.

Lemma set_NPR_shock_free (g : defaultgas F) (self : nozzle F) (NPR : F) :
  (NPR <? NPR0 self) = false -> (NPR <? NPRsw self) = false ->
  set_NPR L g self NPR =
  Ok (with_field self
        (choked_Mach L self)
        (map2 fdiv (ones_like (AxoAc self))
              (map (fun m => Is_PtPs_Mach L m (kw L g)) (choked_Mach L self)))
        (ones_like (AxoAc self))).
Proof. intros E0 E1. unfold set_NPR. now rewrite E0, E1. Qed.

Lemma set_NPR_shock (g : defaultgas F) (self : nozzle F) (NPR : F) ish :
  (NPR <? NPR0 self) = false -> (NPR <? NPRsw self) = true ->
  np_argmin (shock_distance L g self NPR) = Ok ish ->
  set_NPR L g self NPR =
  Ok (with_field self
        (shocked_Mach L g self NPR ish)
        (map2 fdiv (fill_from ish (shock_Ptloss L g self NPR) (ones_like (AxoAc self)))
              (map (fun m => Is_PtPs_Mach L m (kw L g))
                   (shocked_Mach L g self NPR ish)))
        (fill_from ish (shock_Ptloss L g self NPR) (ones_like (AxoAc self)))).
Proof.
  intros E0 E1 Ei. unfold set_NPR. rewrite E0, E1.
  unfold shock_distance, shock_Msh, shock_Ptloss in Ei. rewrite Ei. simpl.
  unfold shocked_Mach, assign_from. now rewrite map_map.
Qed.

Lemma shock_distance_nonempty (g : defaultgas F) (self : nozzle F) (NPR : F) :
  AxoAc self <> [] -> shock_distance L g self NPR <> [].
Proof.
  intros Hne E. apply (f_equal (@length F)) in E.
  unfold shock_distance in E. rewrite length_map, length_choked_Mach in E.
  destruct (AxoAc self); [congruence | discriminate].
Qed.

Lemma length_shocked_Mach (g : defaultgas F) (self : nozzle F) (NPR : F) ish :
  length (shocked_Mach L g self NPR ish) = length (AxoAc self).
Proof.
  unfold shocked_Mach.
  rewrite length_app, length_map, length_firstn, length_skipn, length_choked_Mach.
  lia.
Qed.

(** [set_NPR] returns on every nozzle with at least one station, and only
    assigns the three field attributes. *)
Lemma set_NPR_returns (g : defaultgas F) (self : nozzle F) (NPR : F) :
  AxoAc self <> [] ->
  exists M P T, set_NPR L g self NPR = Ok (with_field self M P T)
    /\ length M = length (AxoAc self)
    /\ length T = length (AxoAc self)
    /\ P = map2 fdiv T
             (map (fun m => Is_PtPs_Mach L m
                              (if NPR <? NPR0 self then gamma self else kw L g)) M).
Proof.
  intros Hne.
  destruct (NPR <? NPR0 self) eqn:E0.
  - eexists _, _, _. split; [apply (set_NPR_unchoked g self NPR E0)|].
    unfold unchoked_Mach. rewrite length_map, length_ones_like. auto.
  - destruct (NPR <? NPRsw self) eqn:E1.
    + destruct (np_argmin_nonempty _ (shock_distance_nonempty g self NPR Hne)) as [ish Ei].
      eexists _, _, _. split; [apply (set_NPR_shock g self NPR ish E0 E1 Ei)|].
      rewrite length_shocked_Mach, length_fill_from, length_ones_like. auto.
    + eexists _, _, _. split; [apply (set_NPR_shock_free g self NPR E0 E1)|].
      rewrite length_choked_Mach, length_ones_like. auto.
Qed.

End NozzleFacts.

(** ** Construction *)

Section InitFacts.
Context {F : Type} `{Num F}.
Variable L : GasLib F.
Local Open Scope num_scope.

Lemma set_NPR_Ok_inv (g : defaultgas F) (self n' : nozzle F) (NPR : F) :
  set_NPR L g self NPR = Ok n' -> exists M P T, n' = with_field self M P T.
Proof.
  unfold set_NPR.
  destruct (NPR <? NPR0 self); [intros [= <-]; eauto|].
  destruct (NPR <? NPRsw self); [|intros [= <-]; eauto].
  destruct (np_argmin _); simpl; [intros [= <-]; eauto | discriminate].
Qed.

(** What [__init__] leaves in the instance, whether or not it went on to call
    [set_NPR]. *)
Lemma __init___inv g0 x_ section a gamma_ NPR r s (self : nozzle F) g1 :
  __init__ L g0 x_ section a gamma_ NPR r s = Ok (self, g1) ->
  exists s_last,
    last_item section = Ok s_last
    /\ match truthy a with
       | Some v => AsoAc self = v
       | None => exists s_min, np_min section = Ok s_min /\ AsoAc self = s_last / s_min
       end
    /\ AxoAc self = map (fun v => v * AsoAc self / s_last) section
    /\ np_argmin (map fabs (AxoAc self)) = Ok (ithroat self)
    /\ gamma self = gamma_
    /\ (NPR0 self, NPRsw self, NPR1 self, Msub self, Msh self, Msup self)
       = _NPR_Ms_list L g0 (AsoAc self)
    /\ (truthy NPR = None -> _M self = None /\ _Ps self = None /\ _Pt self = None)
    /\ _gamma g1 = _gamma g0.
Proof.
  unfold __init__. intros E.
  assert (exists AsoAc_v s_last,
             last_item section = Ok s_last
             /\ match truthy a with
                | Some v => AsoAc_v = v
                | None => exists s_min, np_min section = Ok s_min
                                        /\ AsoAc_v = s_last / s_min
                end
             /\ (ithroat_v <- np_argmin (map fabs (map (fun v => v * AsoAc_v / s_last) section)) ;;
                 let g1 := save_default g0 in
                 let '(NPR0_v, NPRsw_v, NPR1_v, Msub_v, Msh_v, Msup_v) :=
                   _NPR_Ms_list L g1 AsoAc_v in
                 let self := {| gamma := gamma_; x := x_; AsoAc := AsoAc_v;
                                AxoAc := map (fun v => v * AsoAc_v / s_last) section;
                                ithroat := ithroat_v;
                                NPR0 := NPR0_v; NPRsw := NPRsw_v; NPR1 := NPR1_v;
                                Msub := Msub_v; Msh := Msh_v; Msup := Msup_v;
                                _ref_rttot := r; _scale_ps := s;
                                _M := None; _Ps := None; _Pt := None |} in
                 self <- match truthy NPR with
                         | Some v => set_NPR L g1 self v
                         | None => Ok self
                         end ;;
                 Ok (self, restore_default g1)) = Ok (self, g1)) as (A & sl & Hl & Ha & E').
  { destruct (truthy a) as [v|].
    - simpl in E. destruct (last_item section) as [sl|]; [|discriminate].
      exists v, sl. auto.
    - destruct (last_item section) as [sl|]; [|discriminate]. simpl in E.
      destruct (np_min section) as [sm|] eqn:Em; [|discriminate]. simpl in E.
      exists (sl / sm), sl. repeat split; eauto. }
  clear E. exists sl. split; [exact Hl|].
  destruct (np_argmin _) as [it|] eqn:Ei; [|discriminate]. simpl in E'.
  unfold _NPR_Ms_list in E'.
  destruct (truthy NPR) as [v|].
  - destruct (set_NPR _ _ _ v) as [n'|] eqn:Es; [|discriminate].
    simpl in E'. injection E' as <- <-.
    apply set_NPR_Ok_inv in Es as (M & P & T & ->). simpl.
    repeat split; auto; discriminate.
  - simpl in E'. injection E' as <- <-. simpl.
    repeat split; auto.
Qed.

Lemma __init___stations g0 x_ section a gamma_ NPR r s (self : nozzle F) g1 :
  __init__ L g0 x_ section a gamma_ NPR r s = Ok (self, g1) ->
  length (AxoAc self) = length section /\ AxoAc self <> [].
Proof.
  intros E. apply __init___inv in E as (sl & Hl & _ & HA & _).
  rewrite HA, length_map. split; [reflexivity|].
  apply last_item_Ok in Hl as [a' ->]. rewrite map_app. simpl.
  intros E. now apply app_eq_nil in E as [_ E].
Qed.

End InitFacts.

(** ** Statements that hold for any numbers and any library *)

Section Regimes.
Context {F : Type} `{Num F}.
Variable L : GasLib F.
Local Open Scope num_scope.

(** C3: the regime classifier returns the tuple
    (NPR0, NPRsw, NPR1, Msub, Msh, Msup) with Msub = MachSub_Sigma(AsAc),
    NPR0 = PtPs_Mach(Msub), Msup = MachSup_Sigma(AsAc),
    Msh = downstream_Mn(Msup), NPRsw = PtPs_Mach(Msh)/Pi_ratio(Msup) and
    NPR1 = PtPs_Mach(Msup).  It assigns nothing, and its value is a function
    of AsAc and of the gamma the library calls default to, whatever else the
    ambient gas holds. *)
Theorem NPR_Ms_list_spec (g : defaultgas F) (AsAc : F) :
  let Msub := mf_MachSub_Sigma L AsAc (kw L g) in
  let Msup := mf_MachSup_Sigma L AsAc (kw L g) in
  let Msh := sw_downstream_Mn L Msup (kw L g) in
  _NPR_Ms_list L g AsAc =
    (Is_PtPs_Mach L Msub (kw L g),
     Is_PtPs_Mach L Msh (kw L g) / sw_Pi_ratio L Msup (kw L g),
     Is_PtPs_Mach L Msup (kw L g),
     Msub, Msh, Msup)
  /\ (forall g', kw L g' = kw L g -> _NPR_Ms_list L g' AsAc = _NPR_Ms_list L g AsAc)
  /\ NPR_choked_subsonic L g AsAc = Is_PtPs_Mach L Msub (kw L g)
  /\ NPR_shock_at_exit L g AsAc
     = Is_PtPs_Mach L Msh (kw L g) / sw_Pi_ratio L Msup (kw L g)
  /\ NPR_choked_supersonic L g AsAc = Is_PtPs_Mach L Msup (kw L g).
Proof.
  intros Msub Msup Msh. repeat split.
  intros g' E. now apply _NPR_Ms_list_kw.
Qed.

(** The branches of [Ms_from_AsAc_NPR], in the order the code tests them. *)
Lemma Ms_from_AsAc_NPR_cascade (g : defaultgas F) (AsAc NPR : F) :
  let '(NPR0, NPRsw, NPR1, Msub, Msh, Msup) := _NPR_Ms_list L g AsAc in
  ((NPR <? NPR0) = true ->
     Ms_from_AsAc_NPR L g AsAc NPR = Is_Mach_PtPs L NPR (kw L g))
  /\ ((NPR <? NPR0) = false -> (NPR >? NPRsw) = true ->
     Ms_from_AsAc_NPR L g AsAc NPR = Msup)
  /\ ((NPR <? NPR0) = false -> (NPR >? NPRsw) = false ->
     Ms_from_AsAc_NPR L g AsAc NPR = shock_in_nozzle_Ms L g AsAc NPR).
Proof.
  unfold Ms_from_AsAc_NPR, _NPR_Ms_list.
  repeat split; intros; repeat
    match goal with E : _ = _ |- _ => rewrite E; clear E end; reflexivity.
Qed.



(** C10: on a nozzle built with NPR=None, Mach(), Ps() and Ptot() raise
    (AttributeError: the attributes were never assigned) instead of returning
    any array; a later [set_NPR] returns, after which the three accessors
    return arrays with one entry per station of the profile, and these do not
    depend on what an earlier [set_NPR] had stored. *)
Theorem accessors_need_set_NPR g0 x_ section a gamma_ r s (self : nozzle F) g1 :
  __init__ L g0 x_ section a gamma_ None r s = Ok (self, g1) ->
  Mach self = Raise AttributeError
  /\ Ps self = Raise AttributeError
  /\ Ptot self = Raise AttributeError
  /\ forall g NPR,
       exists n' M P T,
         set_NPR L g self NPR = Ok n'
         /\ Mach n' = Ok M /\ Ps n' = Ok P /\ Ptot n' = Ok T
         /\ length M = length section
         /\ length P = length section
         /\ length T = length section
         /\ forall g' NPR' n'', set_NPR L g' n' NPR' = Ok n'' ->
              set_NPR L g' self NPR' = Ok n''.
Proof.
  intros E.
  destruct (__init___stations L _ _ _ _ _ _ _ _ _ _ E) as [Hlen Hne].
  apply __init___inv in E as (_ & _ & _ & _ & _ & _ & _ & Hnone & _).
  destruct (Hnone eq_refl) as (HM & HP & HT).
  unfold Mach, Ps, Ptot. rewrite HM, HP, HT. repeat split.
  intros g NPR.
  destruct (set_NPR_returns L g self NPR Hne) as (M & P & T & Es & HlM & HlT & HPs).
  exists (with_field self M P T), M, P, T. simpl.
  split; [exact Es|]. do 3 (split; [reflexivity|]).
  split; [congruence|]. split; [|split; [congruence|]].
  - rewrite HPs, length_map2_same; rewrite ?length_map; congruence.
  - intros g' NPR' n'' E'. exact E'.
Qed.

End Regimes.

(** ** Exact arithmetic *)

Section OverReals.
Local Open Scope R_scope.

Lemma Rltb_true a b : Rltb a b = true <-> a < b.
Proof. unfold Rltb. destruct (Rlt_dec a b); split; auto; discriminate. Qed.

Lemma Rltb_false a b : Rltb a b = false <-> b <= a.
Proof.
  unfold Rltb. destruct (Rlt_dec a b); split; auto; try discriminate; lra.
Qed.

Lemma Rleb_true a b : Rleb a b = true <-> a <= b.
Proof. unfold Rleb. destruct (Rle_dec a b); split; auto; discriminate. Qed.

Lemma Rleb_false a b : Rleb a b = false <-> b < a.
Proof.
  unfold Rleb. destruct (Rle_dec a b); split; auto; try discriminate; lra.
Qed.


(** [np.min] returns an element that bounds the array from below. *)
Lemma np_min_R (a : list R) m :
  np_min a = Ok m -> In m a /\ forall v, In v a -> m <= v.
Proof.
  destruct a as [|v0 rest]; simpl; [discriminate|]. intros [= <-].
  revert v0. induction rest as [|u rest IH]; intros v0; simpl.
  - split; [auto|]. intros v [<-|[]]. lra.
  - rewrite orb_false_r.
    destruct (Rltb v0 u) eqn:E.
    + apply Rltb_true in E. destruct (IH v0) as [Hin Hle]. split.
      * destruct Hin as [Hin|Hin]; auto.
      * intros v [<-|[<-|Hv]]; auto.
        specialize (Hle v0 (or_introl eq_refl)). lra.
    + apply Rltb_false in E. destruct (IH u) as [Hin Hle]. split.
      * destruct Hin as [Hin|Hin]; auto.
      * intros v [<-|[<-|Hv]]; auto.
        specialize (Hle u (or_introl eq_refl)). lra.
Qed.

(** The scan of [argmin], with [pre] the part already seen: [mp] is its
    least element and [m] the first place where it stands. *)
Lemma argmin_loop_R (ip : list R) : forall pre mp m,
  nth_error pre m = Some mp ->
  (forall v, In v pre -> mp <= v) ->
  (forall j vj, (j < m)%nat -> nth_error pre j = Some vj -> mp < vj) ->
  exists vr,
    nth_error (pre ++ ip) (argmin_loop mp m (length pre) ip) = Some vr
    /\ (forall v, In v (pre ++ ip) -> vr <= v)
    /\ (forall j vj, (j < argmin_loop mp m (length pre) ip)%nat ->
          nth_error (pre ++ ip) j = Some vj -> vr < vj).
Proof.
  induction ip as [|v rest IH]; intros pre mp m Hm Hle Hfirst; simpl.
  - rewrite app_nil_r. eauto.
  - assert (Hlen : (m < length pre)%nat) by (apply nth_error_Some; congruence).
    replace (pre ++ v :: rest) with ((pre ++ [v]) ++ rest)
      by (now rewrite <- app_assoc).
    replace (S (length pre)) with (length (pre ++ [v]))
      by (rewrite length_app; simpl; lia).
    destruct (Rleb mp v) eqn:E; simpl.
    + apply Rleb_true in E. apply IH.
      * rewrite nth_error_app1 by exact Hlen. exact Hm.
      * intros u Hu. apply in_app_or in Hu as [Hu|[<-|[]]]; auto.
      * intros j vj Hj Hn. apply (Hfirst j vj Hj).
        rewrite nth_error_app1 in Hn by lia. exact Hn.
    + apply Rleb_false in E.
      apply (IH (pre ++ [v]) v (length pre)).
      * rewrite nth_error_app2 by lia. now rewrite Nat.sub_diag.
      * intros u Hu. apply in_app_or in Hu as [Hu|[<-|[]]]; [|lra].
        specialize (Hle u Hu). lra.
      * intros j vj Hj Hn. rewrite nth_error_app1 in Hn by exact Hj.
        apply nth_error_In in Hn. specialize (Hle vj Hn). lra.
Qed.

(** [argmin] returns the first index of a least element. *)
Lemma np_argmin_R (a : list R) i :
  np_argmin a = Ok i ->
  exists vi, nth_error a i = Some vi
    /\ (forall v, In v a -> vi <= v)
    /\ (forall j vj, (j < i)%nat -> nth_error a j = Some vj -> vi < vj).
Proof.
  destruct a as [|v0 rest]; simpl; [discriminate|]. intros [= <-].
  apply (argmin_loop_R rest [v0] v0 0%nat).
  - reflexivity.
  - intros v [<-|[]]. lra.
  - intros j vj Hj. lia.
Qed.

End OverReals.

Section InitReturns.
Context {F : Type} `{Num F}.
Variable L : GasLib F.

Lemma last_item_nonempty (a : list F) : a <> [] -> exists v, last_item a = Ok v.
Proof.
  intros Hne. unfold last_item. destruct (rev a) as [|v r] eqn:E; [|eauto].
  apply (f_equal (@rev F)) in E. rewrite rev_involutive in E. contradiction.
Qed.

(** The constructor returns on every profile with at least one station. *)
Lemma __init___returns g0 x_ section a gamma_ NPR r s :
  section <> [] ->
  exists self g1, __init__ L g0 x_ section a gamma_ NPR r s = Ok (self, g1).
Proof.
  intros Hne. unfold __init__.
  destruct (last_item_nonempty section Hne) as [sl El]. rewrite El.
  assert (EA : exists A,
             match truthy a with
             | Some a0 => Ok a0
             | None => s_last <- Ok sl ;; s_min <- np_min section ;;
                       Ok (fdiv s_last s_min)
             end = Ok A).
  { destruct (truthy a); [eauto|]. simpl.
    destruct section; [congruence|]. simpl. eauto. }
  destruct EA as [A ->]. simpl.
  set (B := map (fun v => fdiv (fmul v A) sl) section).
  assert (HB : B <> []) by (unfold B; destruct section; [congruence | discriminate]).
  destruct (np_argmin_nonempty (map fabs B)) as [it ->].
  { destruct B; [congruence | discriminate]. }
  simpl. unfold _NPR_Ms_list.
  destruct (truthy NPR) as [v|]; [|simpl; eauto].
  match goal with |- context [set_NPR L ?g ?n v] =>
    destruct (set_NPR_returns L g n v HB) as (M & P & T & -> & _)
  end.
  simpl. eauto.
Qed.

End InitReturns.

Section Throat.
Local Open Scope R_scope.
Variable L : GasLib R.



End Throat.

Section ShockPlacement.
Local Open Scope R_scope.
Variable L : GasLib R.

Lemma last_item_app_nonempty (a b : list R) :
  b <> [] -> last_item (a ++ b) = last_item b.
Proof.
  intros Hb. destruct (last_item_nonempty b Hb) as [v Ev].
  rewrite Ev. apply last_item_Ok in Ev as [b' ->].
  rewrite app_assoc. apply last_item_app.
Qed.

Lemma last_item_skipn (a : list R) k v :
  (k < length a)%nat -> last_item a = Ok v -> last_item (skipn k a) = Ok v.
Proof.
  intros Hk Ev. apply last_item_Ok in Ev as [a' ->].
  rewrite length_app in Hk. simpl in Hk.
  rewrite skipn_app. replace (k - length a')%nat with 0%nat by lia.
  simpl. apply last_item_app.
Qed.

(** The exit station carries the ratio AsoAc, forced or not. *)
Lemma exit_area_ratio g0 x_ section a gamma_ NPR r s self g1 s_last :
  __init__ L g0 x_ section a gamma_ NPR r s = Ok (self, g1) ->
  last_item section = Ok s_last -> s_last <> 0 ->
  last_item (AxoAc self) = Ok (AsoAc self).
Proof.
  intros E Hl Hnz. apply __init___inv in E as (sl & Hl' & _ & HB & _).
  rewrite Hl in Hl'. injection Hl' as <-.
  rewrite HB.
  rewrite (last_item_map _ section s_last Hl).
  f_equal. simpl. field. exact Hnz.
Qed.

(** X15: for a constructed nozzle and NPR0 <= NPR < NPRsw, with
    Ms = Ms_from_AsAc_NPR(AsoAc, NPR), Ptloss = PtPs_Mach(Ms)/NPR and
    Msh = Mn_Pi_ratio(Ptloss): the shock index ish is the first index of
    least |M - Msh| over the whole candidate array, the subsonic stations
    and the throat included; before ish the Mach is
    the candidate's and Ptot is 1; from ish on the Mach is the subsonic
    inverse of AxoAc*Sigma_Mach(Ms)/AsoAc and Ptot is Ptloss; the exit Mach
    is MachSub_Sigma(Sigma_Mach(Ms)), that is Ms wherever the library's
    subsonic inverse undoes Sigma_Mach at Ms; and Ms is the closed-form root
    when the default gamma is the one the thresholds were computed with. *)
Theorem set_NPR_shock_placement g0 x_ section a gamma_ NPR_ r s self g1 g NPR :
  __init__ L g0 x_ section a gamma_ NPR_ r s = Ok (self, g1) ->
  NPR0 self <= NPR -> NPR < NPRsw self ->
  let Ms := Ms_from_AsAc_NPR L g (AsoAc self) NPR in
  let Ptloss := Is_PtPs_Mach L Ms (kw L g) / NPR in
  let Msh := sw_Mn_Pi_ratio L Ptloss (kw L g) in
  exists ish n' M T,
    set_NPR L g self NPR = Ok n' /\ Mach n' = Ok M /\ Ptot n' = Ok T
    /\ (ish < length section)%nat
    /\ (exists m_ish,
          nth_error (choked_Mach L self) ish = Some m_ish
          /\ (forall j m_j, nth_error (choked_Mach L self) j = Some m_j ->
                Rabs (m_ish - Msh) <= Rabs (m_j - Msh))
          /\ (forall j m_j, (j < ish)%nat ->
                nth_error (choked_Mach L self) j = Some m_j ->
                Rabs (m_ish - Msh) < Rabs (m_j - Msh)))
    /\ (forall i, (i < ish)%nat ->
          nth_error M i = nth_error (choked_Mach L self) i
          /\ nth_error T i = Some 1)
    /\ (forall i a_i, (ish <= i)%nat -> nth_error (AxoAc self) i = Some a_i ->
          nth_error M i
          = Some (mf_MachSub_Sigma L
                    (a_i * mf_Sigma_Mach L Ms (kw L g) / AsoAc self) (kw L g))
          /\ nth_error T i = Some Ptloss)
    /\ (forall s_last, last_item section = Ok s_last ->
          s_last <> 0 -> AsoAc self <> 0 ->
          last_item M
          = Ok (mf_MachSub_Sigma L (mf_Sigma_Mach L Ms (kw L g)) (kw L g))
          /\ (mf_MachSub_Sigma L (mf_Sigma_Mach L Ms (kw L g)) (kw L g) = Ms ->
              last_item M = Ok Ms))
    /\ (kw L g = kw L g0 -> Ms = shock_in_nozzle_Ms L g (AsoAc self) NPR).
Proof.
  intros E H0 H1 Ms Ptloss Msh.
  destruct (__init___stations L _ _ _ _ _ _ _ _ _ _ E) as [Hlen Hne].
  assert (E0 : fltb NPR (NPR0 self) = false) by (apply Rltb_false; exact H0).
  assert (E1 : fltb NPR (NPRsw self) = true) by (apply Rltb_true; exact H1).
  destruct (np_argmin_nonempty _ (shock_distance_nonempty L g self NPR Hne))
    as [ish Ei].
  pose proof (np_argmin_lt _ _ Ei) as Hish.
  unfold shock_distance in Hish.
  rewrite length_map, length_choked_Mach in Hish.
  exists ish. eexists _, _, _.
  split; [apply (set_NPR_shock L g self NPR ish E0 E1 Ei)|].
  do 2 (split; [reflexivity|]).
  split; [lia|]. split; [|split; [|split; [|split]]].
  - apply np_argmin_R in Ei as (d & Hd & Hmin & Hfirst).
    unfold shock_distance in Hd, Hmin, Hfirst. rewrite nth_error_map in Hd.
    destruct (nth_error (choked_Mach L self) ish) as [m_ish|] eqn:Em;
      [|discriminate].
    injection Hd as <-. exists m_ish. split; [reflexivity|]. split.
    + intros j m_j Hj. apply Hmin. apply in_map_iff. exists m_j.
      split; [reflexivity|]. eapply nth_error_In; eauto.
    + intros j m_j Hlt Hj. apply (Hfirst j _ Hlt).
      rewrite nth_error_map, Hj. reflexivity.
  - intros i Hi. split.
    + unfold shocked_Mach.
      rewrite nth_error_app1
        by (rewrite length_firstn, length_choked_Mach; lia).
      now apply nth_error_firstn_lt.
    + rewrite nth_error_fill_from_lt by exact Hi.
      unfold ones_like. rewrite nth_error_map.
      destruct (nth_error (AxoAc self) i) eqn:En; [reflexivity|].
      apply nth_error_None in En. lia.
  - intros i a_i Hi Ha.
    assert (Hil : (i < length (AxoAc self))%nat)
      by (apply nth_error_Some; congruence).
    split.
    + unfold shocked_Mach.
      rewrite nth_error_app2
        by (rewrite length_firstn, length_choked_Mach; lia).
      rewrite length_firstn, length_choked_Mach, Nat.min_l by lia.
      rewrite nth_error_map, nth_error_skipn.
      replace (ish + (i - ish))%nat with i by lia. now rewrite Ha.
    + apply nth_error_fill_from_ge; [exact Hi|].
      now rewrite length_ones_like.
  - intros s_last Hl Hnz HA.
    pose proof (exit_area_ratio _ _ _ _ _ _ _ _ _ _ _ E Hl Hnz) as Hexit.
    assert (Hlast : last_item (shocked_Mach L g self NPR ish)
                    = Ok (mf_MachSub_Sigma L (mf_Sigma_Mach L Ms (kw L g)) (kw L g))).
    { unfold shocked_Mach. rewrite last_item_app_nonempty.
      - rewrite (last_item_map _ _ (AsoAc self)
                   (last_item_skipn _ _ _ Hish Hexit)).
        f_equal. f_equal. fold Ms. simpl. field. exact HA.
      - intros En. apply (f_equal (@length R)) in En.
        rewrite length_map, length_skipn in En. simpl in En. lia. }
    split; [exact Hlast|]. intros Hrt. now rewrite Hlast, Hrt.
  - intros Hkw. apply __init___inv in E as (_ & _ & _ & _ & _ & _ & Hth & _).
    rewrite <- (_NPR_Ms_list_kw L g g0 _ Hkw) in Hth.
    pose proof (Ms_from_AsAc_NPR_cascade L g (AsoAc self) NPR) as C.
    rewrite <- Hth in C. destruct C as (_ & _ & C).
    apply C; [exact E0|]. apply Rltb_false. lra.
Qed.

End ShockPlacement.

(** ** The exit-Mach solvers *)

Section ExitMach.
Local Open Scope R_scope.

Lemma sqrt_between (lo hi a : R) :
  0 <= lo -> 0 <= hi -> lo * lo <= a -> a <= hi * hi -> lo <= R_sqrt.sqrt a <= hi.
Proof.
  intros Hlo Hhi H1 H2. split.
  - rewrite <- (sqrt_square lo Hlo). now apply sqrt_le_1_alt.
  - rewrite <- (sqrt_square hi Hhi). now apply sqrt_le_1_alt.
Qed.

Lemma Rpower_3 (b : R) : 0 < b -> Rpower b 3 = b * b * b.
Proof.
  intros Hb. replace 3 with (INR 3) by (simpl; lra).
  rewrite Rpower_pow by exact Hb. ring.
Qed.

(** The closed-form root at AsAc = 2.636, NPR = 1.5 and gamma = 1.4, where
    the exponent (gamma+1)/2/(gamma-1) is 3. *)
Lemma shock_in_nozzle_Ms_doctest (L : GasLib R) (g : defaultgas R) :
  pow L = Rpower -> _gamma g = 1.4 ->
  0.325865735 <= shock_in_nozzle_Ms L g 2.636 1.5 <= 0.32586574.
Proof.
  intros Hpow Hg. unfold shock_in_nozzle_Ms. rewrite Hpow, Hg. simpl.
  set (K := 1.5 / 2.636 / Rpower ((1.4 + 1) / 2) ((1.4 + 1) / 2 / (1.4 - 1))).
  assert (EK : K = 1.5 / 2.636 / 1.728).
  { unfold K. replace ((1.4 + 1) / 2 / (1.4 - 1)) with 3 by lra.
    rewrite Rpower_3 by lra. lra. }
  assert (H1 : 1.042475390904297 <= R_sqrt.sqrt (1 + 2 * (1.4 - 1) * K * K)
               <= 1.042475390904298).
  { apply sqrt_between; rewrite ?EK; lra. }
  set (s1 := R_sqrt.sqrt _) in *.
  apply sqrt_between; lra.
Qed.

(** C1: [Ms_from_AsAc_NPR] returns Mach_PtPs(NPR) when NPR < NPR0, else
    Msup when NPR > NPRsw, else the closed-form root
    Ms = sqrt((sqrt(1+2(gamma-1)K^2)-1)/(gamma-1)) with
    K = NPR/AsAc/((gamma+1)/2)^((gamma+1)/(2(gamma-1))), the thresholds and
    Msup being those of the classifier at AsAc and gamma the ambient
    [_gamma]; and Ms_from_AsAc_NPR(2.636, 1.5) rounds to 0.32586574 at 8
    decimals for gamma = 1.4: in exact arithmetic for every library that
    puts NPR = 1.5 between NPR0 and NPRsw, and in binary64 with the
    perfect-gas library. *)
Theorem Ms_from_AsAc_NPR_regimes :
  (forall (F : Type) (N : Num F) (L : GasLib F) (g : defaultgas F) (AsAc NPR : F),
     let '(NPR0, NPRsw, NPR1, Msub, Msh, Msup) := _NPR_Ms_list L g AsAc in
     (fltb NPR NPR0 = true ->
        Ms_from_AsAc_NPR L g AsAc NPR = Is_Mach_PtPs L NPR (kw L g))
     /\ (fltb NPR NPR0 = false -> fltb NPRsw NPR = true ->
        Ms_from_AsAc_NPR L g AsAc NPR = Msup)
     /\ (fltb NPR NPR0 = false -> fltb NPRsw NPR = false ->
        let gmu := fsub (_gamma g) f1 in
        let K := fdiv (fdiv NPR AsAc)
                      (pow L (fdiv (fadd (_gamma g) f1) f2)
                             (fdiv (fdiv (fadd (_gamma g) f1) f2) gmu)) in
        Ms_from_AsAc_NPR L g AsAc NPR
        = fsqrt (fdiv (fsub (fsqrt (fadd f1 (fmul (fmul (fmul f2 gmu) K) K))) f1)
                      gmu)))
  /\ (forall (L : GasLib R) (g : defaultgas R) (AsAc NPR : R),
        pow L = Rpower -> 1 < _gamma g ->
        let K := NPR / AsAc
                 / Rpower ((_gamma g + 1) / 2) ((_gamma g + 1) / (2 * (_gamma g - 1))) in
        shock_in_nozzle_Ms L g AsAc NPR
        = R_sqrt.sqrt ((R_sqrt.sqrt (1 + 2 * (_gamma g - 1) * (K * K)) - 1) / (_gamma g - 1)))
  /\ (forall (L : GasLib R) (g : defaultgas R),
        pow L = Rpower -> _gamma g = 1.4 ->
        NPR_choked_subsonic L g 2.636 <= 1.5 <= NPR_shock_at_exit L g 2.636 ->
        rounds_to_8 (Ms_from_AsAc_NPR L g 2.636 1.5) 0.32586574)
  /\ (let v := Ms_from_AsAc_NPR PerfectGas.ambient (PerfectGas.gas 1.4) 2.636 1.5 in
      PrimFloat.leb 0.325865735 v && PrimFloat.ltb v 0.325865745 = true)%float.
Proof.
  split; [|split; [|split]].
  - intros F N L g AsAc NPR.
    pose proof (Ms_from_AsAc_NPR_cascade L g AsAc NPR) as C.
    unfold _NPR_Ms_list in *. exact C.
  - intros L g AsAc NPR Hpow Hg K. unfold shock_in_nozzle_Ms. simpl.
    rewrite Hpow.
    replace ((_gamma g + 1) / 2 / (_gamma g - 1))
      with ((_gamma g + 1) / (2 * (_gamma g - 1))) by (field; lra).
    fold K.
    replace (2 * (_gamma g - 1) * K * K) with (2 * (_gamma g - 1) * (K * K))
      by ring.
    reflexivity.
  - intros L g Hpow Hg [Hlo Hhi].
    pose proof (Ms_from_AsAc_NPR_cascade L g 2.636 1.5) as C.
    unfold _NPR_Ms_list in C. destruct C as (_ & _ & C).
    rewrite C.
    + pose proof (shock_in_nozzle_Ms_doctest L g Hpow Hg).
      unfold rounds_to_8. lra.
    + apply Rltb_false. exact Hlo.
    + apply Rltb_false. exact Hhi.
  - vm_compute. reflexivity.
Qed.


End ExitMach.

(** ** Total pressure along the nozzle, and the role of [gamma] *)

Section TotalPressure.
Context {F : Type} `{Num F}.
Variable L : GasLib F.

(** The total pressure [set_NPR] stores: ones, except from the shock index
    on when a shock is placed -- wherever that index falls. *)
Lemma Ptot_after_set_NPR (g : defaultgas F) (self n' : nozzle F) (NPR : F) :
  set_NPR L g self NPR = Ok n' ->
  (fltb NPR (NPR0 self) = false /\ fltb NPR (NPRsw self) = true
   /\ exists ish, np_argmin (shock_distance L g self NPR) = Ok ish
        /\ Ptot n' = Ok (fill_from ish (shock_Ptloss L g self NPR)
                                   (ones_like (AxoAc self))))
  \/ ((fltb NPR (NPR0 self) = true \/ fltb NPR (NPRsw self) = false)
      /\ Ptot n' = Ok (ones_like (AxoAc self))).
Proof.
  intros E.
  destruct (fltb NPR (NPR0 self)) eqn:E0.
  - rewrite (set_NPR_unchoked L g self NPR E0) in E. injection E as <-. auto.
  - destruct (fltb NPR (NPRsw self)) eqn:E1.
    + left. split; [reflexivity|]. split; [reflexivity|].
      destruct (np_argmin (shock_distance L g self NPR)) as [ish|] eqn:Ei.
      * rewrite (set_NPR_shock L g self NPR ish E0 E1 Ei) in E.
        injection E as <-. eauto.
      * unfold set_NPR in E. rewrite E0, E1 in E.
        unfold shock_distance, shock_Msh, shock_Ptloss in Ei.
        rewrite Ei in E. discriminate.
    + rewrite (set_NPR_shock_free L g self NPR E0 E1) in E.
      injection E as <-. auto.
Qed.

(** A shock index at or before the throat puts the loss on the throat. *)
Lemma Ptot_throat_under_shock (g : defaultgas F) (self n' : nozzle F) (NPR : F) ish :
  set_NPR L g self NPR = Ok n' ->
  fltb NPR (NPR0 self) = false -> fltb NPR (NPRsw self) = true ->
  np_argmin (shock_distance L g self NPR) = Ok ish ->
  ish <= ithroat self -> ithroat self < length (AxoAc self) ->
  exists T, Ptot n' = Ok T
    /\ nth_error T (ithroat self) = Some (shock_Ptloss L g self NPR).
Proof.
  intros E E0 E1 Ei Hle Hlt.
  rewrite (set_NPR_shock L g self NPR ish E0 E1 Ei) in E. injection E as <-.
  eexists. split; [reflexivity|].
  apply nth_error_fill_from_ge; [exact Hle|]. now rewrite length_ones_like.
Qed.

(** The thresholds stored at construction do not involve the [gamma]
    argument, and the ambient gas is handed back as it was found. *)
Lemma thresholds_ignore_gamma g0 x_ section a gamma1 gamma2 NPR1_ NPR2_ r s
    (n1 n2 : nozzle F) g1 g2 :
  __init__ L g0 x_ section a gamma1 NPR1_ r s = Ok (n1, g1) ->
  __init__ L g0 x_ section a gamma2 NPR2_ r s = Ok (n2, g2) ->
  (NPR0 n1, NPRsw n1, NPR1 n1, Msub n1, Msh n1, Msup n1)
  = (NPR0 n2, NPRsw n2, NPR1 n2, Msub n2, Msh n2, Msup n2)
  /\ _gamma g1 = _gamma g0 /\ _gamma g2 = _gamma g0.
Proof.
  intros E1 E2.
  apply __init___inv in E1 as (sl1 & Hl1 & HA1 & _ & _ & _ & Ht1 & _ & Hg1).
  apply __init___inv in E2 as (sl2 & Hl2 & HA2 & _ & _ & _ & Ht2 & _ & Hg2).
  rewrite Hl1 in Hl2. injection Hl2 as <-.
  assert (EA : AsoAc n1 = AsoAc n2).
  { destruct (truthy a); [congruence|].
    destruct HA1 as (m1 & Hm1 & ->), HA2 as (m2 & Hm2 & ->). congruence. }
  rewrite Ht1, Ht2, EA. auto.
Qed.

End TotalPressure.

Section Binary64.
Local Open Scope float_scope.

(** C6 says Ptot[throat_index] == 1 after every [set_NPR].  On the profile
    [2, 1, 2] with gamma = 1.4 and NPR = 1.2, between NPR0 and NPRsw, the
    nearest-Mach search runs over the whole candidate array, subsonic
    stations and throat included, and returns the throat itself: the loss
    factor is stored from the throat on and Ptot[throat_index] is 0.904. *)
Theorem Ptot_throat_loss :
  exists self g1 n' T v,
    __init__ PerfectGas.ambient (PerfectGas.gas 1.4) [] [2; 1; 2] None 1.4 None 1 1
    = Ok (self, g1)
    /\ PrimFloat.leb (NPR0 self) 1.2 && PrimFloat.ltb 1.2 (NPRsw self) = true
    /\ set_NPR PerfectGas.ambient g1 self 1.2 = Ok n'
    /\ ithroat n' = 1%nat
    /\ np_argmin (shock_distance PerfectGas.ambient g1 self 1.2) = Ok 1%nat
    /\ Ptot n' = Ok T
    /\ nth_error T (ithroat n') = Some v
    /\ PrimFloat.ltb v 0.91 = true.
Proof.
  do 5 eexists.
  split; [vm_compute; reflexivity|].
  split; [vm_compute; reflexivity|].
  split; [vm_compute; reflexivity|].
  split; [vm_compute; reflexivity|].
  split; [vm_compute; reflexivity|].
  split; [vm_compute; reflexivity|].
  split; vm_compute; reflexivity.
Qed.

(** C8 says the thresholds and the field of a nozzle built with an explicit
    gamma do not depend on the ambient gas.  Two runs with gamma = 1.4,
    profile [2, 1, 2] and NPR = 1.5 that differ only in the ambient
    [_gamma] (1.4 and 1.3): with a library whose default gamma follows the
    ambient gas the thresholds differ; with a library whose default is fixed
    the thresholds agree and the total pressure behind the shock still
    differs, through the [defg._gamma] that [Ms_from_AsAc_NPR] reads. *)
Theorem field_depends_on_ambient_gas :
  (exists n1 g1 n2 g2,
     __init__ PerfectGas.ambient (PerfectGas.gas 1.4) [] [2; 1; 2] None 1.4 (Some 1.5) 1 1
     = Ok (n1, g1)
     /\ __init__ PerfectGas.ambient (PerfectGas.gas 1.3) [] [2; 1; 2] None 1.4 (Some 1.5) 1 1
        = Ok (n2, g2)
     /\ PrimFloat.ltb (NPR0 n2) (NPR0 n1) = true)
  /\ (exists n1 g1 n2 g2 T1 T2 v1 v2,
        __init__ PerfectGas.air (PerfectGas.gas 1.4) [] [2; 1; 2] None 1.4 (Some 1.5) 1 1
        = Ok (n1, g1)
        /\ __init__ PerfectGas.air (PerfectGas.gas 1.3) [] [2; 1; 2] None 1.4 (Some 1.5) 1 1
           = Ok (n2, g2)
        /\ (NPR0 n1, NPRsw n1, NPR1 n1) = (NPR0 n2, NPRsw n2, NPR1 n2)
        /\ Ptot n1 = Ok T1 /\ Ptot n2 = Ok T2
        /\ nth_error T1 2 = Some v1 /\ nth_error T2 2 = Some v2
        /\ PrimFloat.ltb v1 v2 = true).
Proof.
  split.
  - do 4 eexists.
    split; [vm_compute; reflexivity|].
    split; vm_compute; reflexivity.
  - do 8 eexists.
    split; [vm_compute; reflexivity|].
    split; [vm_compute; reflexivity|].
    split; [vm_compute; reflexivity|].
    split; [vm_compute; reflexivity|].
    split; [vm_compute; reflexivity|].
    split; [vm_compute; reflexivity|].
    split; vm_compute; reflexivity.
Qed.

End Binary64.

(** ** Instances *)

Section Instances.


(** Rounding is outside the exact statement: without a forced AsoAc the
    profile [100, 49, 64] stores 49*(64/49)/64 at the throat, which in
    binary64 is the float just below 1. *)
Remark unforced_throat_ratio_in_binary64 :
  exists self g1,
    __init__ PerfectGas.ambient (PerfectGas.gas 1.4%float) []
      [100; 49; 64]%float None 1.4%float None 1%float 1%float
    = Ok (self, g1)
    /\ nth_error (AxoAc self) (ithroat self) = Some 0.99999999999999989%float.
Proof. do 2 eexists. split; vm_compute; reflexivity. Qed.


Lemma set_NPR_shock_placement_witness :
  exists self g1 n' M,
    __init__ Surrogate.lib (Surrogate.gas 1.4%R) [] [2; 1; 2]%R (Some 2%R) 1.4%R None 1%R 1%R
    = Ok (self, g1)
    /\ (NPR0 self <= 2 < NPRsw self)%R
    /\ set_NPR Surrogate.lib g1 self 2%R = Ok n'
    /\ Mach n' = Ok M
    /\ last_item M = Ok (Ms_from_AsAc_NPR Surrogate.lib g1 (AsoAc self) 2%R).
Proof.
  destruct (__init___returns Surrogate.lib (Surrogate.gas 1.4%R) []
              [2; 1; 2]%R (Some 2%R) 1.4%R None 1%R 1%R)
    as (self & g1 & E); [discriminate|].
  pose proof (__init___inv _ _ _ _ _ _ _ _ _ _ _ E)
    as (sl & Hl & HA & _ & _ & _ & Hth & _).
  assert (Ht : truthy (Some 2%R) = Some 2%R).
  { simpl. unfold Reqb. destruct (Req_dec_T 2 0); [lra | reflexivity]. }
  rewrite Ht in HA. rewrite HA in Hth.
  unfold _NPR_Ms_list in Hth. simpl in Hth.
  injection Hth as H0 H1 _ _ _ _.
  assert (Hreg : (NPR0 self <= 2 < NPRsw self)%R) by (rewrite H0, H1; lra).
  destruct (set_NPR_shock_placement Surrogate.lib _ _ _ _ _ _ _ _ _ _ g1 2%R E
              (proj1 Hreg) (proj2 Hreg))
    as (ish & n' & M & T & Es & EM & _ & _ & _ & _ & _ & Hexit & _).
  exists self, g1, n', M.
  split; [exact E|]. split; [exact Hreg|]. split; [exact Es|].
  split; [exact EM|].
  apply (Hexit 2%R); [reflexivity | lra | rewrite HA; lra |].
  simpl. apply Rinv_inv.
Defined.

Lemma Ms_from_AsAc_NPR_regimes_witness :
  (NPR_choked_subsonic Surrogate.lib (Surrogate.gas 1.4) 2.636 <= 1.5
   <= NPR_shock_at_exit Surrogate.lib (Surrogate.gas 1.4) 2.636)%R
  /\ rounds_to_8
       (Ms_from_AsAc_NPR Surrogate.lib (Surrogate.gas 1.4%R) 2.636%R 1.5%R)
       0.32586574%R.
Proof.
  assert (Hreg : (NPR_choked_subsonic Surrogate.lib (Surrogate.gas 1.4) 2.636 <= 1.5
                  <= NPR_shock_at_exit Surrogate.lib (Surrogate.gas 1.4) 2.636)%R).
  { unfold NPR_choked_subsonic, NPR_shock_at_exit. simpl. lra. }
  split; [exact Hreg|].
  exact (proj1 (proj2 (proj2 Ms_from_AsAc_NPR_regimes))
           Surrogate.lib (Surrogate.gas 1.4%R) eq_refl eq_refl Hreg).
Defined.



Lemma accessors_need_set_NPR_witness :
  exists self g1,
    __init__ PerfectGas.ambient (PerfectGas.gas 1.4%float) []
      [2; 1; 2]%float None 1.4%float None 1%float 1%float
    = Ok (self, g1)
    /\ Mach self = Raise AttributeError
    /\ Ps self = Raise AttributeError
    /\ Ptot self = Raise AttributeError.
Proof.
  destruct (__init___returns PerfectGas.ambient (PerfectGas.gas 1.4%float) []
              [2; 1; 2]%float None 1.4%float None 1%float 1%float)
    as (self & g1 & E); [discriminate|].
  exists self, g1. split; [exact E|].
  destruct (accessors_need_set_NPR PerfectGas.ambient _ _ _ _ _ _ _ _ _ E)
    as (HM & HP & HT & _).
  auto.
Defined.

End Instances.

(** * Further properties of the constructor and of [set_NPR] *)

Section ConstructorEdges.
Context {F : Type} `{Num F}.
Variable L : GasLib F.

Lemma map_const_repeat {A B : Type} (c : B) (l : list A) :
  map (fun _ => c) l = repeat c (length l).
Proof. induction l as [|u l IH]; simpl; [reflexivity | now rewrite IH]. Qed.

Lemma __init___empty g0 x_ a gamma_ NPR r s :
  __init__ L g0 x_ [] a gamma_ NPR r s = Raise IndexError.
Proof. unfold __init__. destruct (truthy a); reflexivity. Qed.

(** X1: on an empty profile the constructor raises the IndexError of
    [section[-1]], whatever the other arguments: with a forced AsoAc (line
    164) as without one (line 163, before [np.min] is reached), and before
    any call to the gas library. *)
Theorem init_empty_profile g0 x_ a gamma_ NPR r s :
  __init__ L g0 x_ [] a gamma_ NPR r s = Raise IndexError
  /\ __init__ L g0 x_ [] None gamma_ NPR r s
     = __init__ L g0 x_ [] a gamma_ NPR r s.
Proof. now rewrite !__init___empty. Qed.

(** The constructor with an NPR is the constructor without one followed by
    [set_NPR] under the gas it was called with. *)
Lemma __init___decompose g0 x_ section a gamma_ NPR r s (self : nozzle F) g1 :
  __init__ L g0 x_ section a gamma_ NPR r s = Ok (self, g1) ->
  exists n0,
    __init__ L g0 x_ section a gamma_ None r s = Ok (n0, g1)
    /\ x n0 = x_ /\ _ref_rttot n0 = r /\ _scale_ps n0 = s
    /\ match truthy NPR with
       | Some v => set_NPR L g0 n0 v = Ok self
       | None => self = n0
       end.
Proof.
  unfold __init__.
  destruct (match truthy a with
            | Some a0 => Ok a0
            | None => s_last <- last_item section ;; s_min <- np_min section ;;
                      Ok (fdiv s_last s_min)
            end) as [A|]; [|discriminate]. simpl.
  destruct (last_item section) as [sl|]; [|discriminate]. simpl.
  destruct (np_argmin _) as [it|]; [|discriminate]. simpl.
  unfold _NPR_Ms_list.
  destruct (truthy NPR) as [v|].
  - destruct (set_NPR L (save_default g0) _ v) as [n'|] eqn:Es; [|discriminate].
    simpl. intros [= <- <-]. eexists. split; [reflexivity|].
    repeat split. exact Es.
  - simpl. intros [= <- <-]. eexists. split; [reflexivity|]. repeat split.
Qed.

(** X2: what a constructed nozzle holds: one area ratio per station, a
    throat index that is a valid station index, the arguments x, gamma,
    ref_rttot and scale_ps as given; without an NPR (None or 0.) the three
    accessors raise, and with one they return arrays with one entry per
    station. *)
Theorem init_shape g0 x_ section a gamma_ NPR r s (self : nozzle F) g1 :
  __init__ L g0 x_ section a gamma_ NPR r s = Ok (self, g1) ->
  length (AxoAc self) = length section
  /\ ithroat self < length section
  /\ x self = x_ /\ gamma self = gamma_
  /\ _ref_rttot self = r /\ _scale_ps self = s
  /\ (truthy NPR = None ->
      Mach self = Raise AttributeError /\ Ps self = Raise AttributeError
      /\ Ptot self = Raise AttributeError)
  /\ (forall v, truthy NPR = Some v ->
      exists M P T,
        Mach self = Ok M /\ Ps self = Ok P /\ Ptot self = Ok T
        /\ length M = length section /\ length P = length section
        /\ length T = length section).
Proof.
  intros E.
  destruct (__init___stations L _ _ _ _ _ _ _ _ _ _ E) as [Hlen Hne].
  pose proof (__init___inv L _ _ _ _ _ _ _ _ _ _ E)
    as (sl & _ & _ & _ & Hit & Hg & _ & Hnone & _).
  apply np_argmin_lt in Hit. rewrite length_map, Hlen in Hit.
  destruct (__init___decompose _ _ _ _ _ _ _ _ _ _ E)
    as (n0 & E0 & Hx & Hr & Hs & Hset).
  split; [exact Hlen|]. split; [exact Hit|].
  assert (Hattrs : x self = x_ /\ _ref_rttot self = r /\ _scale_ps self = s).
  { destruct (truthy NPR) as [v|].
    - apply set_NPR_Ok_inv in Hset as (M & P & T & ->). simpl. auto.
    - subst n0. auto. }
  destruct Hattrs as (Hx' & Hr' & Hs').
  split; [exact Hx'|]. split; [exact Hg|]. split; [exact Hr'|].
  split; [exact Hs'|]. split.
  - intros Hn. destruct (Hnone Hn) as (HM & HP & HT).
    unfold Mach, Ps, Ptot. rewrite HM, HP, HT. auto.
  - intros v Hv. rewrite Hv in Hset.
    destruct (__init___stations L _ _ _ _ _ _ _ _ _ _ E0) as [Hlen0 Hne0].
    destruct (set_NPR_returns L g0 n0 v Hne0)
      as (M & P & T & Es & HlM & HlT & HP).
    rewrite Es in Hset. injection Hset as <-.
    exists M, P, T. simpl. do 3 (split; [reflexivity|]).
    split; [congruence|]. split; [|congruence].
    rewrite HP, length_map2_same; rewrite ?length_map; congruence.
Qed.

(** X3: an AsoAc or an NPR that compares equal to zero is treated as an
    absent argument: the constructor computes AsoAc from the profile, and
    computes no field. *)
Theorem zero_arguments_are_absent g0 x_ section a gamma_ NPR r s (z : F) :
  feqb z f0 = true ->
  __init__ L g0 x_ section (Some z) gamma_ NPR r s
  = __init__ L g0 x_ section None gamma_ NPR r s
  /\ __init__ L g0 x_ section a gamma_ (Some z) r s
     = __init__ L g0 x_ section a gamma_ None r s.
Proof.
  intros Hz. unfold __init__, truthy. rewrite Hz. split; reflexivity.
Qed.

(** X4: building a nozzle with an NPR is building it without one and then
    calling [set_NPR] under the same ambient gas; the ambient [_gamma] is the
    same after the call as before. *)
Theorem init_with_NPR_is_set_NPR g0 x_ section a gamma_ (v : F) r s
    (self : nozzle F) g1 :
  truthy (Some v) = Some v ->
  __init__ L g0 x_ section a gamma_ (Some v) r s = Ok (self, g1) ->
  exists n0,
    __init__ L g0 x_ section a gamma_ None r s = Ok (n0, g1)
    /\ set_NPR L g0 n0 v = Ok self
    /\ set_NPR L g1 n0 v = Ok self
    /\ _gamma g1 = _gamma g0.
Proof.
  intros Hv E.
  destruct (__init___decompose _ _ _ _ _ _ _ _ _ _ E) as (n0 & E0 & _ & _ & _ & Hset).
  rewrite Hv in Hset.
  pose proof (__init___inv L _ _ _ _ _ _ _ _ _ _ E)
    as (_ & _ & _ & _ & _ & _ & _ & _ & Hg).
  exists n0. split; [exact E0|]. split; [exact Hset|]. split; [|exact Hg].
  rewrite <- Hset. unfold set_NPR, Ms_from_AsAc_NPR, _NPR_Ms_list, shock_in_nozzle_Ms, kw.
  now rewrite Hg.
Qed.

(** X5: [set_NPR] only replaces the field: geometry, gamma and thresholds
    are kept; calling it again gives what the last call alone gives, so
    repeating a call changes nothing. *)
Theorem set_NPR_overwrites (g1 : defaultgas F) (self n1 : nozzle F) (NPRa : F) :
  set_NPR L g1 self NPRa = Ok n1 ->
  (AxoAc n1 = AxoAc self /\ AsoAc n1 = AsoAc self /\ ithroat n1 = ithroat self
   /\ gamma n1 = gamma self
   /\ (NPR0 n1, NPRsw n1, NPR1 n1, Msub n1, Msh n1, Msup n1)
      = (NPR0 self, NPRsw self, NPR1 self, Msub self, Msh self, Msup self))
  /\ (forall g2 NPRb, set_NPR L g2 n1 NPRb = set_NPR L g2 self NPRb)
  /\ set_NPR L g1 n1 NPRa = Ok n1.
Proof.
  intros E. pose proof E as E'.
  apply set_NPR_Ok_inv in E' as (M & P & T & ->).
  split; [simpl; auto 6|]. split; [reflexivity|]. exact E.
Qed.

(** X7: the total pressure [set_NPR] stores is a step: 1 on the first [k]
    stations and one loss factor, PtPs_Mach(Ms)/NPR, on the others, with [k]
    the number of stations whenever NPR < NPR0 or the test NPR < NPRsw
    fails. *)
Theorem Ptot_is_a_step (g : defaultgas F) (self n' : nozzle F) (NPR : F) :
  set_NPR L g self NPR = Ok n' ->
  exists k,
    k <= length (AxoAc self)
    /\ Ptot n' = Ok (repeat f1 k
                     ++ repeat (shock_Ptloss L g self NPR) (length (AxoAc self) - k))
    /\ (fltb NPR (NPR0 self) = true \/ fltb NPR (NPRsw self) = false ->
        k = length (AxoAc self)).
Proof.
  intros E.
  assert (Hones : ones_like (AxoAc self)
                  = repeat f1 (length (AxoAc self)) ++ repeat
                      (shock_Ptloss L g self NPR)
                      (length (AxoAc self) - length (AxoAc self))).
  { rewrite Nat.sub_diag. simpl. rewrite app_nil_r. apply map_const_repeat. }
  destruct (Ptot_after_set_NPR L g self n' NPR E)
    as [(E0 & E1 & ish & Ei & HT)|(Hreg & HT)].
  - pose proof (np_argmin_lt _ _ Ei) as Hish.
    unfold shock_distance in Hish.
    rewrite length_map, length_choked_Mach in Hish.
    exists ish. split; [lia|]. split.
    + rewrite HT. f_equal. unfold fill_from, ones_like.
      rewrite (map_const_repeat (shock_Ptloss L g self NPR)).
      rewrite length_skipn, length_map, firstn_map.
      now rewrite map_const_repeat, length_firstn, Nat.min_l by lia.
    + intros [Hc|Hc]; congruence.
  - exists (length (AxoAc self)). split; [lia|]. split; [|reflexivity].
    now rewrite HT, Hones.
Qed.

End ConstructorEdges.

Section RegimeEdges.
Context {F : Type} `{Num F}.
Variable L : GasLib F.

(** X11: once neither NPR < NPR0 nor NPR < NPRsw holds, the stored field no
    longer depends on NPR: [set_NPR] gives the same nozzle for any two such
    pressure ratios. *)
Theorem shock_free_field_ignores_NPR (g : defaultgas F) (self : nozzle F)
    (NPRa NPRb : F) :
  fltb NPRa (NPR0 self) = false -> fltb NPRa (NPRsw self) = false ->
  fltb NPRb (NPR0 self) = false -> fltb NPRb (NPRsw self) = false ->
  set_NPR L g self NPRa = set_NPR L g self NPRb
  /\ exists n', set_NPR L g self NPRa = Ok n'
       /\ Mach n' = Ok (choked_Mach L self)
       /\ Ptot n' = Ok (ones_like (AxoAc self)).
Proof.
  intros Ha0 Ha1 Hb0 Hb1.
  rewrite (set_NPR_shock_free L g self NPRa Ha0 Ha1).
  rewrite (set_NPR_shock_free L g self NPRb Hb0 Hb1).
  split; [reflexivity|]. eexists. split; [reflexivity|]. split; reflexivity.
Qed.

End RegimeEdges.

Section ExitStation.
Local Open Scope R_scope.
Variable L : GasLib R.

Lemma map2_app (f : R -> R -> R) (a a' b b' : list R) :
  length a = length b ->
  map2 f (a ++ a') (b ++ b') = map2 f a b ++ map2 f a' b'.
Proof.
  revert b. induction a as [|u a IH]; intros [|v b] E; simpl in *;
    try discriminate; [reflexivity|].
  f_equal. apply IH. now injection E.
Qed.

Lemma last_item_map2 (f : R -> R -> R) (a b : list R) u v :
  length a = length b -> last_item a = Ok u -> last_item b = Ok v ->
  last_item (map2 f a b) = Ok (f u v).
Proof.
  intros E Ha Hb.
  apply last_item_Ok in Ha as [a' ->]. apply last_item_Ok in Hb as [b' ->].
  rewrite !length_app in E. simpl in E.
  rewrite map2_app by lia. simpl. apply last_item_app.
Qed.

Lemma last_item_const (c : R) (a : list R) :
  a <> [] -> last_item (map (fun _ => c) a) = Ok c.
Proof.
  intros Hne. destruct (last_item_nonempty a Hne) as [u Hu].
  exact (last_item_map (fun _ => c) a u Hu).
Qed.

Lemma last_item_fill_from k (c : R) (a : list R) :
  (k < length a)%nat -> last_item (fill_from k c a) = Ok c.
Proof.
  intros Hk. unfold fill_from.
  assert (Hne : skipn k a <> []).
  { intros E. apply (f_equal (@length R)) in E.
    rewrite length_skipn in E. simpl in E. lia. }
  rewrite last_item_app_nonempty.
  - now apply last_item_const.
  - intros E. apply map_eq_nil in E. contradiction.
Qed.

(** X6: in exact arithmetic, the last stored area ratio is AsoAc, forced or
    not (for section[-1] nonzero); computed from a profile of positive areas,
    AsoAc is at least 1, and is 1 exactly when the exit is a narrowest
    station. *)
Theorem exit_station_ratio g0 x_ section a gamma_ NPR r s self g1 s_last :
  __init__ L g0 x_ section a gamma_ NPR r s = Ok (self, g1) ->
  last_item section = Ok s_last -> s_last <> 0 ->
  last_item (AxoAc self) = Ok (AsoAc self)
  /\ (truthy a = None -> (forall v, In v section -> 0 < v) ->
      1 <= AsoAc self
      /\ (AsoAc self = 1 <-> forall v, In v section -> s_last <= v)).
Proof.
  intros E Hl Hnz. split; [exact (exit_area_ratio L _ _ _ _ _ _ _ _ _ _ _ E Hl Hnz)|].
  intros Ht Hpos.
  apply __init___inv in E as (sl & Hl' & HA & _).
  rewrite Hl in Hl'. injection Hl' as <-. rewrite Ht in HA.
  destruct HA as (sm & Hm & ->). simpl.
  apply np_min_R in Hm as [Hin Hle].
  assert (Hsl : In s_last section).
  { apply last_item_Ok in Hl as [a' ->]. apply in_or_app. simpl. auto. }
  pose proof (Hpos sm Hin) as Hsm. pose proof (Hle s_last Hsl) as Hms.
  split.
  - apply (Rmult_le_reg_r sm); [exact Hsm|]. field_simplify; lra.
  - split.
    + intros E1 v Hv. specialize (Hle v Hv).
      assert (s_last = sm); [|lra].
      apply (f_equal (fun t => t * sm)) in E1. field_simplify in E1; lra.
    + intros Hall. specialize (Hall sm Hin).
      assert (s_last = sm) as -> by lra. field. lra.
Qed.

(** X8: below NPR0, in exact arithmetic and where the library's inverses are
    exact at the exit Mach Ms = Mach_PtPs(NPR), the field honours the imposed
    pressure ratio: the exit Mach is Ms and the exit static pressure is
    1/NPR. *)
Theorem exit_pressure_unchoked g0 x_ section a gamma_ NPR_ r s self g1 s_last g NPR :
  __init__ L g0 x_ section a gamma_ NPR_ r s = Ok (self, g1) ->
  last_item section = Ok s_last -> s_last <> 0 -> AsoAc self <> 0 ->
  NPR < NPR0 self ->
  mf_MachSub_Sigma L
    (mf_Sigma_Mach L (Is_Mach_PtPs L NPR (gamma self)) (kw L g)) (gamma self)
  = Is_Mach_PtPs L NPR (gamma self) ->
  Is_PtPs_Mach L (Is_Mach_PtPs L NPR (gamma self)) (gamma self) = NPR ->
  exists n' M P,
    set_NPR L g self NPR = Ok n' /\ Mach n' = Ok M /\ Ps n' = Ok P
    /\ last_item M = Ok (Is_Mach_PtPs L NPR (gamma self))
    /\ last_item P = Ok (1 / NPR).
Proof.
  intros E Hl Hnz HA Hlt Hrt Hpt.
  pose proof (exit_area_ratio L _ _ _ _ _ _ _ _ _ _ _ E Hl Hnz) as Hexit.
  destruct (__init___stations L _ _ _ _ _ _ _ _ _ _ E) as [_ Hne].
  assert (E0 : fltb NPR (NPR0 self) = true) by (apply Rltb_true; exact Hlt).
  eexists _, _, _. split; [apply (set_NPR_unchoked L g self NPR E0)|].
  do 2 (split; [reflexivity|]).
  assert (HM : last_item (unchoked_Mach L g self NPR)
               = Ok (Is_Mach_PtPs L NPR (gamma self))).
  { unfold unchoked_Mach. rewrite (last_item_map _ _ _ Hexit).
    f_equal. rewrite <- Hrt at 2. f_equal. simpl. field. exact HA. }
  split; [exact HM|].
  rewrite (last_item_map2 Rdiv _ _ 1 NPR).
  - reflexivity.
  - unfold unchoked_Mach, ones_like. now rewrite !length_map.
  - now apply last_item_const.
  - rewrite (last_item_map _ _ _ HM). now rewrite Hpt.
Qed.

(** X9: with a shock in the nozzle (NPR0 <= NPR < NPRsw), in exact
    arithmetic and where the library's subsonic inverse undoes Sigma_Mach at
    Ms = Ms_from_AsAc_NPR(AsoAc, NPR), the exit carries Mach Ms, total
    pressure PtPs_Mach(Ms)/NPR and static pressure 1/NPR. *)
Theorem exit_pressure_with_shock g0 x_ section a gamma_ NPR_ r s self g1 s_last g NPR :
  __init__ L g0 x_ section a gamma_ NPR_ r s = Ok (self, g1) ->
  last_item section = Ok s_last -> s_last <> 0 -> AsoAc self <> 0 ->
  NPR0 self <= NPR -> NPR < NPRsw self -> NPR <> 0 ->
  let Ms := Ms_from_AsAc_NPR L g (AsoAc self) NPR in
  mf_MachSub_Sigma L (mf_Sigma_Mach L Ms (kw L g)) (kw L g) = Ms ->
  Is_PtPs_Mach L Ms (kw L g) <> 0 ->
  exists n' M P T,
    set_NPR L g self NPR = Ok n'
    /\ Mach n' = Ok M /\ Ps n' = Ok P /\ Ptot n' = Ok T
    /\ last_item M = Ok Ms
    /\ last_item T = Ok (Is_PtPs_Mach L Ms (kw L g) / NPR)
    /\ last_item P = Ok (1 / NPR).
Proof.
  intros E Hl Hnz HA H0 H1 HN Ms Hrt Hpt.
  pose proof (exit_area_ratio L _ _ _ _ _ _ _ _ _ _ _ E Hl Hnz) as Hexit.
  destruct (__init___stations L _ _ _ _ _ _ _ _ _ _ E) as [_ Hne].
  assert (E0 : fltb NPR (NPR0 self) = false) by (apply Rltb_false; exact H0).
  assert (E1 : fltb NPR (NPRsw self) = true) by (apply Rltb_true; exact H1).
  destruct (np_argmin_nonempty _ (shock_distance_nonempty L g self NPR Hne))
    as [ish Ei].
  pose proof (np_argmin_lt _ _ Ei) as Hish.
  unfold shock_distance in Hish.
  rewrite length_map, length_choked_Mach in Hish.
  eexists _, _, _, _. split; [apply (set_NPR_shock L g self NPR ish E0 E1 Ei)|].
  do 3 (split; [reflexivity|]).
  assert (HM : last_item (shocked_Mach L g self NPR ish) = Ok Ms).
  { unfold shocked_Mach. rewrite last_item_app_nonempty.
    - rewrite (last_item_map _ _ (AsoAc self)
                 (last_item_skipn _ _ _ Hish Hexit)).
      f_equal. fold Ms. rewrite <- Hrt at 2. f_equal. simpl. field. exact HA.
    - intros En. apply (f_equal (@length R)) in En.
      rewrite length_map, length_skipn in En. simpl in En. lia. }
  assert (HT : last_item (fill_from ish (shock_Ptloss L g self NPR)
                            (ones_like (AxoAc self)))
               = Ok (Is_PtPs_Mach L Ms (kw L g) / NPR)).
  { rewrite last_item_fill_from by (now rewrite length_ones_like).
    reflexivity. }
  split; [exact HM|]. split; [exact HT|].
  assert (Hlen : length (fill_from ish (shock_Ptloss L g self NPR)
                           (ones_like (AxoAc self)))
                 = length (map (fun m => Is_PtPs_Mach L m (kw L g))
                               (shocked_Mach L g self NPR ish))).
  { now rewrite length_fill_from, length_ones_like, length_map,
      length_shocked_Mach. }
  etransitivity.
  { apply (last_item_map2 _ _ _ _ _ Hlen HT
             (last_item_map (fun m => Is_PtPs_Mach L m (kw L g)) _ _ HM)). }
  f_equal. simpl. field. split; assumption.
Qed.

(** X10: the two solvers at the thresholds, in exact arithmetic and under
    the default gamma the thresholds were computed with.  At NPR = NPR0 both
    have left the unchoked branch: the scalar solver returns the closed-form
    root and [set_NPR] places a shock (or, if NPR0 = NPRsw, stores the
    shock-free field).  At NPR = NPRsw they part: the scalar solver still
    returns the closed-form root of the shock-in-nozzle branch, while
    [set_NPR] stores the shock-free field with Ptot = 1 everywhere. *)
Theorem solvers_at_the_thresholds g0 x_ section a gamma_ NPR_ r s self g1 g :
  __init__ L g0 x_ section a gamma_ NPR_ r s = Ok (self, g1) ->
  kw L g = kw L g0 -> NPR0 self <= NPRsw self ->
  (Ms_from_AsAc_NPR L g (AsoAc self) (NPR0 self)
   = shock_in_nozzle_Ms L g (AsoAc self) (NPR0 self)
   /\ exists n', set_NPR L g self (NPR0 self) = Ok n'
        /\ (NPR0 self < NPRsw self ->
            exists ish,
              np_argmin (shock_distance L g self (NPR0 self)) = Ok ish
              /\ Mach n' = Ok (shocked_Mach L g self (NPR0 self) ish))
        /\ (NPR0 self = NPRsw self -> Mach n' = Ok (choked_Mach L self)))
  /\ Ms_from_AsAc_NPR L g (AsoAc self) (NPRsw self)
     = shock_in_nozzle_Ms L g (AsoAc self) (NPRsw self)
  /\ exists n', set_NPR L g self (NPRsw self) = Ok n'
       /\ Mach n' = Ok (choked_Mach L self)
       /\ Ptot n' = Ok (ones_like (AxoAc self)).
Proof.
  intros E Hkw Hord.
  destruct (__init___stations L _ _ _ _ _ _ _ _ _ _ E) as [_ Hne].
  apply __init___inv in E as (_ & _ & _ & _ & _ & _ & Hth & _).
  rewrite <- (_NPR_Ms_list_kw L g g0 _ Hkw) in Hth.
  assert (Hcf : forall NPR, NPR0 self <= NPR <= NPRsw self ->
            Ms_from_AsAc_NPR L g (AsoAc self) NPR
            = shock_in_nozzle_Ms L g (AsoAc self) NPR).
  { intros NPR [Hlo Hhi].
    pose proof (Ms_from_AsAc_NPR_cascade L g (AsoAc self) NPR) as C.
    rewrite <- Hth in C. destruct C as (_ & _ & C).
    apply C; apply Rltb_false; assumption. }
  assert (E00 : fltb (NPR0 self) (NPR0 self) = false) by (apply Rltb_false; lra).
  assert (E10 : fltb (NPRsw self) (NPR0 self) = false) by (apply Rltb_false; lra).
  assert (E11 : fltb (NPRsw self) (NPRsw self) = false) by (apply Rltb_false; lra).
  split; [split|split].
  - apply Hcf. lra.
  - destruct (Rle_lt_or_eq_dec _ _ Hord) as [Hlt|Heq].
    + assert (E01 : fltb (NPR0 self) (NPRsw self) = true)
        by (apply Rltb_true; exact Hlt).
      destruct (np_argmin_nonempty _
                  (shock_distance_nonempty L g self (NPR0 self) Hne))
        as [ish Ei].
      eexists. split; [apply (set_NPR_shock L g self _ ish E00 E01 Ei)|].
      split; [intros _; exists ish; split; [exact Ei | reflexivity]|].
      intros Heq. lra.
    + assert (E01 : fltb (NPR0 self) (NPRsw self) = false)
        by (apply Rltb_false; lra).
      eexists. split; [apply (set_NPR_shock_free L g self _ E00 E01)|].
      split; [intros Hlt; lra | reflexivity].
  - apply Hcf. lra.
  - eexists. split; [apply (set_NPR_shock_free L g self _ E10 E11)|].
    split; reflexivity.
Qed.

(** X12: in the shock-free regime and in exact arithmetic, when the throat
    is not the last station the exit Mach is the supersonic inverse of
    AsoAc. *)
Theorem exit_Mach_shock_free g0 x_ section a gamma_ NPR_ r s self g1 s_last g NPR :
  __init__ L g0 x_ section a gamma_ NPR_ r s = Ok (self, g1) ->
  last_item section = Ok s_last -> s_last <> 0 ->
  (ithroat self + 1 < length section)%nat ->
  NPR0 self <= NPR -> NPRsw self <= NPR ->
  exists n' M,
    set_NPR L g self NPR = Ok n' /\ Mach n' = Ok M
    /\ last_item M = Ok (mf_MachSup_Sigma L (AsoAc self) (gamma self)).
Proof.
  intros E Hl Hnz Hlt H0 H1.
  pose proof (exit_area_ratio L _ _ _ _ _ _ _ _ _ _ _ E Hl Hnz) as Hexit.
  destruct (__init___stations L _ _ _ _ _ _ _ _ _ _ E) as [Hlen Hne].
  assert (E0 : fltb NPR (NPR0 self) = false) by (apply Rltb_false; exact H0).
  assert (E1 : fltb NPR (NPRsw self) = false) by (apply Rltb_false; exact H1).
  eexists _, _. split; [apply (set_NPR_shock_free L g self NPR E0 E1)|].
  split; [reflexivity|]. simpl. rewrite choked_Mach_eq.
  rewrite last_item_app_nonempty.
  - apply (last_item_map (fun v => mf_MachSup_Sigma L v (gamma self))).
    apply last_item_skipn; [lia | exact Hexit].
  - intros En. apply (f_equal (@length R)) in En.
    rewrite length_map, length_skipn in En. simpl in En. lia.
Qed.

(** X14: below NPR0 and in exact arithmetic the field only sees the areas
    relative to the exit: every station's Mach is the subsonic inverse of
    section[i]/section[-1] * Sigma_Mach(Mach_PtPs(NPR)), whatever AsoAc is,
    forced or not. *)
Theorem unchoked_field_uses_exit_areas g0 x_ section a gamma_ NPR_ r s self g1
    s_last g NPR :
  __init__ L g0 x_ section a gamma_ NPR_ r s = Ok (self, g1) ->
  last_item section = Ok s_last -> s_last <> 0 -> AsoAc self <> 0 ->
  NPR < NPR0 self ->
  exists n',
    set_NPR L g self NPR = Ok n'
    /\ Mach n'
       = Ok (map (fun v =>
                    mf_MachSub_Sigma L
                      (v / s_last
                       * mf_Sigma_Mach L (Is_Mach_PtPs L NPR (gamma self)) (kw L g))
                      (gamma self))
                 section).
Proof.
  intros E Hl Hnz HA Hlt.
  assert (E0 : fltb NPR (NPR0 self) = true) by (apply Rltb_true; exact Hlt).
  apply __init___inv in E as (sl & Hl' & _ & HB & _).
  rewrite Hl in Hl'. injection Hl' as <-.
  eexists. split; [apply (set_NPR_unchoked L g self NPR E0)|].
  unfold Mach, with_field, getattr. simpl. f_equal.
  unfold unchoked_Mach. rewrite HB, map_map.
  apply map_ext. intros v. f_equal. f_equal. simpl. field. split; assumption.
Qed.

End ExitStation.

Section GammaArgument.
Context {F : Type} `{Num F}.
Variable L : GasLib F.

(** X13: what the constructor derives does not involve its gamma and NPR
    arguments: two nozzles built from the same profile and AsoAc under the
    same ambient gas have the same AsoAc, area ratios, throat index and
    thresholds, and the thresholds are the classifier's at AsoAc under that
    ambient gas. *)
Theorem geometry_and_thresholds_ignore_gamma g0 x_ section a gamma1 gamma2
    NPR1_ NPR2_ r s (n1 n2 : nozzle F) g1 g2 :
  __init__ L g0 x_ section a gamma1 NPR1_ r s = Ok (n1, g1) ->
  __init__ L g0 x_ section a gamma2 NPR2_ r s = Ok (n2, g2) ->
  AsoAc n1 = AsoAc n2 /\ AxoAc n1 = AxoAc n2 /\ ithroat n1 = ithroat n2
  /\ (NPR0 n1, NPRsw n1, NPR1 n1, Msub n1, Msh n1, Msup n1)
     = (NPR0 n2, NPRsw n2, NPR1 n2, Msub n2, Msh n2, Msup n2)
  /\ (NPR0 n1, NPRsw n1, NPR1 n1, Msub n1, Msh n1, Msup n1)
     = _NPR_Ms_list L g0 (AsoAc n1)
  /\ g1 = g2.
Proof.
  intros E1 E2.
  destruct (thresholds_ignore_gamma L _ _ _ _ _ _ _ _ _ _ _ _ _ _ E1 E2)
    as (Hth & _ & _).
  destruct (__init___decompose L _ _ _ _ _ _ _ _ _ _ E1) as (m1 & D1 & _).
  destruct (__init___decompose L _ _ _ _ _ _ _ _ _ _ E2) as (m2 & D2 & _).
  assert (Hg : g1 = g2).
  { revert D1 D2. unfold __init__.
    destruct (match truthy a with | Some a0 => Ok a0 | None => _ end); [|discriminate].
    simpl. destruct (last_item section); [|discriminate]. simpl.
    destruct (np_argmin _); [|discriminate]. simpl.
    intros [= _ <-] [= _ <-]. reflexivity. }
  pose proof (__init___inv L _ _ _ _ _ _ _ _ _ _ E1)
    as (sl1 & Hl1 & HA1 & HB1 & Hi1 & _ & Ht1 & _).
  pose proof (__init___inv L _ _ _ _ _ _ _ _ _ _ E2)
    as (sl2 & Hl2 & HA2 & HB2 & Hi2 & _ & Ht2 & _).
  rewrite Hl1 in Hl2. injection Hl2 as <-.
  assert (EA : AsoAc n1 = AsoAc n2).
  { destruct (truthy a); [congruence|].
    destruct HA1 as (m1' & Hm1 & ->), HA2 as (m2' & Hm2 & ->). congruence. }
  assert (EB : AxoAc n1 = AxoAc n2) by (rewrite HB1, HB2, EA; reflexivity).
  split; [exact EA|]. split; [exact EB|]. split.
  - rewrite EB in Hi1. rewrite Hi1 in Hi2. now injection Hi2.
  - split; [exact Hth|]. split; [exact Ht1 | exact Hg].
Qed.

End GammaArgument.

(** ** Instances of the further properties *)

Section MoreInstances.

(** The nozzle [2, 1, 2] with AsoAc = 2 over the surrogate library. *)
Lemma surrogate_nozzle :
  exists self g1,
    __init__ Surrogate.lib (Surrogate.gas 1.4%R) [] [2; 1; 2]%R (Some 2%R)
      1.4%R None 1%R 1%R = Ok (self, g1)
    /\ AsoAc self = 2%R /\ gamma self = 1.4%R
    /\ NPR0 self = (1 + / 2)%R
    /\ NPRsw self = ((1 + / 2) / (2 / (1 + 2)))%R
    /\ length (AxoAc self) = 3%nat.
Proof.
  destruct (__init___returns Surrogate.lib (Surrogate.gas 1.4%R) []
              [2; 1; 2]%R (Some 2%R) 1.4%R None 1%R 1%R)
    as (self & g1 & E); [discriminate|].
  pose proof (__init___inv _ _ _ _ _ _ _ _ _ _ _ E)
    as (sl & Hl & HA & _ & _ & Hg & Hth & _).
  assert (Ht : truthy (Some 2%R) = Some 2%R).
  { simpl. unfold Reqb. destruct (Req_dec_T 2 0); [lra | reflexivity]. }
  rewrite Ht in HA. rewrite HA in Hth.
  unfold _NPR_Ms_list in Hth. simpl in Hth.
  injection Hth as H0 H1 _ _ _ _.
  exists self, g1. repeat split; auto.
  now destruct (__init___stations _ _ _ _ _ _ _ _ _ _ _ E) as [-> _].
Qed.

Lemma exit_station_ratio_witness :
  exists self g1,
    __init__ Surrogate.lib (Surrogate.gas 1.4%R) [] [2; 1; 2]%R (Some 2%R)
      1.4%R None 1%R 1%R = Ok (self, g1)
    /\ last_item (AxoAc self) = Ok (AsoAc self).
Proof.
  destruct surrogate_nozzle as (self & g1 & E & _).
  exists self, g1. split; [exact E|].
  apply (exit_station_ratio Surrogate.lib _ _ _ _ _ _ _ _ _ _ 2%R E eq_refl).
  lra.
Defined.

Lemma exit_pressure_unchoked_witness :
  exists self g1 n' P,
    __init__ Surrogate.lib (Surrogate.gas 1.4%R) [] [2; 1; 2]%R (Some 2%R)
      1.4%R None 1%R 1%R = Ok (self, g1)
    /\ (1.2 < NPR0 self)%R
    /\ set_NPR Surrogate.lib (Surrogate.gas 1.4%R) self 1.2%R = Ok n'
    /\ Ps n' = Ok P /\ last_item P = Ok (1 / 1.2)%R.
Proof.
  destruct surrogate_nozzle as (self & g1 & E & HA & Hg & H0 & H1 & _).
  assert (Hlt : (1.2 < NPR0 self)%R) by (rewrite H0; lra).
  destruct (exit_pressure_unchoked Surrogate.lib _ _ _ _ _ _ _ _ _ _ 2%R
              (Surrogate.gas 1.4%R) 1.2%R E eq_refl)
    as (n' & M & P & Es & _ & EP & _ & HP);
    [lra | rewrite HA; lra | exact Hlt | simpl; apply Rinv_inv | simpl; lra |].
  exists self, g1, n', P. auto.
Defined.

Lemma exit_pressure_with_shock_witness :
  exists self g1 n' P,
    __init__ Surrogate.lib (Surrogate.gas 1.4%R) [] [2; 1; 2]%R (Some 2%R)
      1.4%R None 1%R 1%R = Ok (self, g1)
    /\ (NPR0 self <= 2 < NPRsw self)%R
    /\ set_NPR Surrogate.lib (Surrogate.gas 1.4%R) self 2%R = Ok n'
    /\ Ps n' = Ok P /\ last_item P = Ok (1 / 2)%R.
Proof.
  destruct surrogate_nozzle as (self & g1 & E & HA & Hg & H0 & H1 & _).
  assert (Hreg : (NPR0 self <= 2 < NPRsw self)%R) by (rewrite H0, H1; lra).
  destruct (exit_pressure_with_shock Surrogate.lib _ _ _ _ _ _ _ _ _ _ 2%R
              (Surrogate.gas 1.4%R) 2%R E eq_refl)
    as (n' & M & P & T & Es & _ & EP & _ & _ & _ & HP);
    [lra | rewrite HA; lra | exact (proj1 Hreg) | exact (proj2 Hreg) | lra
    | simpl; apply Rinv_inv | |].
  - rewrite HA. unfold Ms_from_AsAc_NPR, _NPR_Ms_list, shock_in_nozzle_Ms.
    simpl.
    assert (Hpos : forall t, (1 + R_sqrt.sqrt t <> 0)%R).
    { intros t. pose proof (sqrt_pos t). lra. }
    destruct (Rltb _ _); [lra|]. destruct (Rltb _ _); [lra|]. apply Hpos.
  - exists self, g1, n', P. auto.
Defined.

Lemma unchoked_field_uses_exit_areas_witness :
  exists self g1 n' M,
    __init__ Surrogate.lib (Surrogate.gas 1.4%R) [] [2; 1; 2]%R (Some 2%R)
      1.4%R None 1%R 1%R = Ok (self, g1)
    /\ (1.2 < NPR0 self)%R
    /\ set_NPR Surrogate.lib (Surrogate.gas 1.4%R) self 1.2%R = Ok n'
    /\ Mach n' = Ok M /\ length M = 3%nat.
Proof.
  destruct surrogate_nozzle as (self & g1 & E & HA & Hg & H0 & H1 & _).
  assert (Hlt : (1.2 < NPR0 self)%R) by (rewrite H0; lra).
  destruct (unchoked_field_uses_exit_areas Surrogate.lib _ _ _ _ _ _ _ _ _ _ 2%R
              (Surrogate.gas 1.4%R) 1.2%R E eq_refl)
    as (n' & Es & EM); [lra | rewrite HA; lra | exact Hlt |].
  eexists self, g1, n', _. split; [exact E|]. split; [exact Hlt|].
  split; [exact Es|]. split; [exact EM|]. reflexivity.
Defined.

Lemma solvers_at_the_thresholds_witness :
  exists self g1 n',
    __init__ Surrogate.lib (Surrogate.gas 1.4%R) [] [2; 1; 2]%R (Some 2%R)
      1.4%R None 1%R 1%R = Ok (self, g1)
    /\ (NPR0 self <= NPRsw self)%R
    /\ Ms_from_AsAc_NPR Surrogate.lib (Surrogate.gas 1.4%R) (AsoAc self) (NPRsw self)
       = shock_in_nozzle_Ms Surrogate.lib (Surrogate.gas 1.4%R) (AsoAc self) (NPRsw self)
    /\ set_NPR Surrogate.lib (Surrogate.gas 1.4%R) self (NPRsw self) = Ok n'
    /\ Mach n' = Ok (choked_Mach Surrogate.lib self).
Proof.
  destruct surrogate_nozzle as (self & g1 & E & HA & Hg & H0 & H1 & _).
  assert (Hord : (NPR0 self <= NPRsw self)%R) by (rewrite H0, H1; lra).
  destruct (solvers_at_the_thresholds Surrogate.lib _ _ _ _ _ _ _ _ _ _
              (Surrogate.gas 1.4%R) E eq_refl Hord)
    as (_ & Hcf & n' & Es & EM & _).
  exists self, g1, n'. auto.
Defined.

(** The throat of the surrogate nozzle is its middle station. *)
Lemma surrogate_nozzle_throat self g1 :
  __init__ Surrogate.lib (Surrogate.gas 1.4%R) [] [2; 1; 2]%R (Some 2%R)
    1.4%R None 1%R 1%R = Ok (self, g1) ->
  ithroat self = 1%nat.
Proof.
  intros E.
  pose proof (__init___inv _ _ _ _ _ _ _ _ _ _ _ E)
    as (sl & Hl & HA & HB & Hit & _).
  injection Hl as <-.
  assert (Ht : truthy (Some 2%R) = Some 2%R).
  { simpl. unfold Reqb. destruct (Req_dec_T 2 0); [lra | reflexivity]. }
  rewrite Ht in HA. rewrite HB, HA in Hit. simpl in Hit.
  replace (Rabs (2 * 2 / 2)) with 2%R in Hit by (rewrite Rabs_pos_eq; lra).
  replace (Rabs (1 * 2 / 2)) with 1%R in Hit by (rewrite Rabs_pos_eq; lra).
  assert (E21 : Rleb 2 1 = false) by (apply Rleb_false; lra).
  assert (E12 : Rleb 1 2 = true) by (apply Rleb_true; lra).
  rewrite E21, E12 in Hit. simpl in Hit. now injection Hit.
Qed.

Lemma exit_Mach_shock_free_witness :
  exists self g1 n' M,
    __init__ Surrogate.lib (Surrogate.gas 1.4%R) [] [2; 1; 2]%R (Some 2%R)
      1.4%R None 1%R 1%R = Ok (self, g1)
    /\ (ithroat self + 1 < 3)%nat
    /\ (NPR0 self <= 3)%R /\ (NPRsw self <= 3)%R
    /\ set_NPR Surrogate.lib (Surrogate.gas 1.4%R) self 3%R = Ok n'
    /\ Mach n' = Ok M
    /\ last_item M = Ok (mf_MachSup_Sigma Surrogate.lib (AsoAc self) (gamma self)).
Proof.
  destruct surrogate_nozzle as (self & g1 & E & HA & Hg & H0 & H1 & _).
  assert (Hreg : (NPR0 self <= 3)%R /\ (NPRsw self <= 3)%R)
    by (rewrite H0, H1; split; lra).
  assert (Hit : (ithroat self + 1 < 3)%nat)
    by (rewrite (surrogate_nozzle_throat self g1 E); lia).
  destruct (exit_Mach_shock_free Surrogate.lib _ _ _ _ _ _ _ _ _ _ 2%R
              (Surrogate.gas 1.4%R) 3%R E eq_refl)
    as (n' & M & Es & EM & HM); [lra | exact Hit | tauto | tauto |].
  exists self, g1, n', M. tauto.
Defined.

Lemma init_shape_witness :
  exists self g1,
    __init__ PerfectGas.ambient (PerfectGas.gas 1.4%float) []
      [2; 1; 2]%float None 1.4%float (Some 1.5%float) 1%float 1%float
    = Ok (self, g1)
    /\ length (AxoAc self) = 3%nat /\ ithroat self < 3.
Proof.
  destruct (__init___returns PerfectGas.ambient (PerfectGas.gas 1.4%float) []
              [2; 1; 2]%float None 1.4%float (Some 1.5%float) 1%float 1%float)
    as (self & g1 & E); [discriminate|].
  destruct (init_shape PerfectGas.ambient _ _ _ _ _ _ _ _ _ _ E)
    as (Hlen & Hit & _).
  exists self, g1. auto.
Defined.

Lemma zero_arguments_are_absent_witness :
  __init__ PerfectGas.ambient (PerfectGas.gas 1.4%float) []
    [2; 1; 2]%float (Some (PrimFloat.opp 0)) 1.4%float None 1%float 1%float
  = __init__ PerfectGas.ambient (PerfectGas.gas 1.4%float) []
      [2; 1; 2]%float None 1.4%float None 1%float 1%float.
Proof.
  assert (Hz : feqb (PrimFloat.opp 0) f0 = true) by (vm_compute; reflexivity).
  exact (proj1 (zero_arguments_are_absent PerfectGas.ambient
                  (PerfectGas.gas 1.4%float) [] [2; 1; 2]%float None 1.4%float
                  None 1%float 1%float (PrimFloat.opp 0) Hz)).
Defined.

Lemma init_with_NPR_is_set_NPR_witness :
  exists self g1 n0,
    __init__ PerfectGas.ambient (PerfectGas.gas 1.4%float) []
      [2; 1; 2]%float None 1.4%float (Some 1.5%float) 1%float 1%float
    = Ok (self, g1)
    /\ __init__ PerfectGas.ambient (PerfectGas.gas 1.4%float) []
         [2; 1; 2]%float None 1.4%float None 1%float 1%float
       = Ok (n0, g1)
    /\ set_NPR PerfectGas.ambient (PerfectGas.gas 1.4%float) n0 1.5%float = Ok self.
Proof.
  destruct (__init___returns PerfectGas.ambient (PerfectGas.gas 1.4%float) []
              [2; 1; 2]%float None 1.4%float (Some 1.5%float) 1%float 1%float)
    as (self & g1 & E); [discriminate|].
  assert (Hv : truthy (Some 1.5%float) = Some 1.5%float)
    by (vm_compute; reflexivity).
  destruct (init_with_NPR_is_set_NPR PerfectGas.ambient _ _ _ _ _ _ _ _ _ _
              Hv E)
    as (n0 & E0 & Es & _).
  exists self, g1, n0. auto.
Defined.

Lemma set_NPR_overwrites_witness :
  exists self g1 n1,
    __init__ PerfectGas.ambient (PerfectGas.gas 1.4%float) []
      [2; 1; 2]%float None 1.4%float None 1%float 1%float
    = Ok (self, g1)
    /\ set_NPR PerfectGas.ambient g1 self 1.5%float = Ok n1
    /\ set_NPR PerfectGas.ambient g1 n1 1.5%float = Ok n1
    /\ set_NPR PerfectGas.ambient g1 n1 3%float
       = set_NPR PerfectGas.ambient g1 self 3%float.
Proof.
  destruct (__init___returns PerfectGas.ambient (PerfectGas.gas 1.4%float) []
              [2; 1; 2]%float None 1.4%float None 1%float 1%float)
    as (self & g1 & E); [discriminate|].
  pose proof (proj2 (__init___stations _ _ _ _ _ _ _ _ _ _ _ E)) as Hne.
  destruct (set_NPR_returns PerfectGas.ambient g1 self 1.5%float Hne)
    as (M & P & T & Es & _).
  destruct (set_NPR_overwrites PerfectGas.ambient g1 self _ 1.5%float Es)
    as (_ & Hlast & Hidem).
  eexists self, g1, _. split; [exact E|]. split; [exact Es|].
  split; [exact Hidem | apply Hlast].
Defined.

Lemma Ptot_is_a_step_witness :
  exists self g1 n' k,
    __init__ PerfectGas.ambient (PerfectGas.gas 1.4%float) []
      [2; 1; 2]%float None 1.4%float None 1%float 1%float
    = Ok (self, g1)
    /\ set_NPR PerfectGas.ambient g1 self 1.5%float = Ok n'
    /\ k <= length (AxoAc self)
    /\ Ptot n' = Ok (repeat 1%float k
                     ++ repeat (shock_Ptloss PerfectGas.ambient g1 self 1.5%float)
                          (length (AxoAc self) - k)).
Proof.
  destruct (__init___returns PerfectGas.ambient (PerfectGas.gas 1.4%float) []
              [2; 1; 2]%float None 1.4%float None 1%float 1%float)
    as (self & g1 & E); [discriminate|].
  pose proof (proj2 (__init___stations _ _ _ _ _ _ _ _ _ _ _ E)) as Hne.
  destruct (set_NPR_returns PerfectGas.ambient g1 self 1.5%float Hne)
    as (M & P & T & Es & _).
  destruct (Ptot_is_a_step PerfectGas.ambient g1 self _ 1.5%float Es)
    as (k & Hk & HT & _).
  eexists self, g1, _, k. split; [exact E|]. split; [exact Es|].
  split; [exact Hk | exact HT].
Defined.

Lemma shock_free_field_ignores_NPR_witness :
  exists self g1,
    __init__ PerfectGas.ambient (PerfectGas.gas 1.4%float) []
      [2; 1; 2]%float None 1.4%float None 1%float 1%float
    = Ok (self, g1)
    /\ set_NPR PerfectGas.ambient g1 self 3%float
       = set_NPR PerfectGas.ambient g1 self 5%float.
Proof.
  destruct (__init___returns PerfectGas.ambient (PerfectGas.gas 1.4%float) []
              [2; 1; 2]%float None 1.4%float None 1%float 1%float)
    as (self & g1 & E); [discriminate|].
  assert (Hreg : PrimFloat.ltb 3 (NPR0 self) = false
                 /\ PrimFloat.ltb 3 (NPRsw self) = false
                 /\ PrimFloat.ltb 5 (NPR0 self) = false
                 /\ PrimFloat.ltb 5 (NPRsw self) = false).
  { revert E. vm_compute. intros [= <- _]. repeat split. }
  destruct Hreg as (Ha0 & Ha1 & Hb0 & Hb1).
  exists self, g1. split; [exact E|].
  exact (proj1 (shock_free_field_ignores_NPR PerfectGas.ambient g1 self
                  3%float 5%float Ha0 Ha1 Hb0 Hb1)).
Defined.

Lemma geometry_and_thresholds_ignore_gamma_witness :
  exists n1 g1 n2 g2,
    __init__ PerfectGas.ambient (PerfectGas.gas 1.4%float) []
      [2; 1; 2]%float None 1.4%float None 1%float 1%float
    = Ok (n1, g1)
    /\ __init__ PerfectGas.ambient (PerfectGas.gas 1.4%float) []
         [2; 1; 2]%float None 1.3%float (Some 1.5%float) 1%float 1%float
       = Ok (n2, g2)
    /\ (NPR0 n1, NPRsw n1, NPR1 n1) = (NPR0 n2, NPRsw n2, NPR1 n2).
Proof.
  destruct (__init___returns PerfectGas.ambient (PerfectGas.gas 1.4%float) []
              [2; 1; 2]%float None 1.4%float None 1%float 1%float)
    as (n1 & g1 & E1); [discriminate|].
  destruct (__init___returns PerfectGas.ambient (PerfectGas.gas 1.4%float) []
              [2; 1; 2]%float None 1.3%float (Some 1.5%float) 1%float 1%float)
    as (n2 & g2 & E2); [discriminate|].
  destruct (geometry_and_thresholds_ignore_gamma PerfectGas.ambient
              _ _ _ _ _ _ _ _ _ _ _ _ _ _ E1 E2)
    as (_ & _ & _ & Hth & _).
  exists n1, g1, n2, g2. split; [exact E1|]. split; [exact E2|].
  congruence.
Defined.

End MoreInstances.

Section ShockIndex.
Local Open Scope float_scope.


End ShockIndex.
